(** * SIGVerse object controller: a shallow embedding of
    [object_controller.cpp] and the properties of its timer registry,
    command dispatcher and controller loop.

    Numbers: the C++ [double] and [float] values are read as real numbers
    ([R]); rounding is not modelled. Characters ([char]) are integers.
    The clock ([ros::Time::now().toSec()]), the keyboard ([select]/[read]),
    the timer manager's choice of due timers and the interrupt signal are
    the environment: they appear as explicit arguments. *)

From Stdlib Require Import Reals Lra ZArith Ascii.
From stdpp Require Import gmap strings list.

#[local] Open Scope Z_scope.

(** ** Messages *)

(** [geometry_msgs::Vector3] *)
Record Vector3 := mkVector3 { v_x : R; v_y : R; v_z : R }.

(** [geometry_msgs::Quaternion] *)
Record Quaternion := mkQuaternion { q_x : R; q_y : R; q_z : R; q_w : R }.

(** A generated ROS message constructor sets every numeric field to zero;
    this is the value of [transformStamped.transform.rotation] when no
    assignment to it is made. *)
Definition Quaternion_unset : Quaternion := mkQuaternion 0 0 0 0.

(** [geometry_msgs::TransformStamped], the fields the controller touches. *)
Record TransformStamped := mkTransformStamped {
  frame_id : string;
  child_frame_id : string;
  translation : Vector3;
  rotation : Quaternion
}.

(** [tf::createQuaternionFromRPY], i.e. [tf::Quaternion::setRPY]. *)
Definition createQuaternionFromRPY (roll pitch yaw : R) : Quaternion :=
  let hy := (yaw * / 2)%R in
  let hp := (pitch * / 2)%R in
  let hr := (roll * / 2)%R in
  mkQuaternion
    (sin hr * cos hp * cos hy - cos hr * sin hp * sin hy)%R
    (cos hr * sin hp * cos hy + sin hr * cos hp * sin hy)%R
    (cos hr * cos hp * sin hy - sin hr * sin hp * cos hy)%R
    (cos hr * cos hp * cos hy + sin hr * sin hp * sin hy)%R.

(** ** Controller state *)

(** The arguments bound into a timer's callback by
    [boost::bind(&sendPositonCallback, this, name, now, speed)]. *)
Record TimerCallback := mkTimerCallback {
  cb_name : string;
  cb_start_time : R;
  cb_speed : R
}.

(** A [ros::Timer] is a handle on a timer owned by the node's timer
    manager; the timer is removed from the manager when its last handle
    goes away. Handles are numbered in creation order.

    [pub_msg_] and [pub_transform_] are the two publishers, each modelled
    by the sequence of messages published on it so far. *)
Record Controller := mkController {
  pub_timer_map_ : gmap string nat;
  timer_manager : list (nat * TimerCallback);
  next_handle : nat;
  pub_msg_ : list string;
  pub_transform_ : list TransformStamped
}.

Definition Controller_init : Controller :=
  mkController ∅ [] 0%nat [] [].

Definition publish_msg (data : string) (c : Controller) : Controller :=
  mkController (pub_timer_map_ c) (timer_manager c) (next_handle c)
               (pub_msg_ c ++ [data]) (pub_transform_ c).

Definition publish_transform (ts : TransformStamped) (c : Controller)
  : Controller :=
  mkController (pub_timer_map_ c) (timer_manager c) (next_handle c)
               (pub_msg_ c) (pub_transform_ c ++ [ts]).

(** Number of publish calls made so far, on either channel. *)
Definition publish_count (c : Controller) : nat :=
  (length (pub_msg_ c) + length (pub_transform_ c))%nat.

(** ** Key codes *)

Definition KEYCODE_1 : Z := 0x31.
Definition KEYCODE_2 : Z := 0x32.
Definition KEYCODE_3 : Z := 0x33.
Definition KEYCODE_G : Z := 0x67.
Definition KEYCODE_H : Z := 0x68.
Definition KEYCODE_I : Z := 0x69.
Definition KEYCODE_R : Z := 0x72.

(** ** Message senders *)

Definition sendGraspedMessage (name : string) (c : Controller) : Controller :=
  publish_msg ("grasped," +:+ name) c.

Definition sendReleasedMessage (c : Controller) : Controller :=
  publish_msg "released" c.

(** The quaternion [qua] is computed but the assignment to
    [transform.rotation] is commented out in the source, so the message
    goes out with the rotation it was constructed with. *)
Definition sendPositon (name : string) (posx posy : R) (c : Controller)
  : Controller :=
  let pos := mkVector3 posx posy 0 in
  let qua := createQuaternionFromRPY 0 0 0 in
  publish_transform (mkTransformStamped "map" name pos Quaternion_unset) c.

(** [pos_val] of [sendPositonCallback]; [now] is the clock at the firing. *)
Definition pos_val (start_time speed now : R) : R :=
  (start_time + speed * now)%R.

(** The quaternion [sendPositonCallback] computes (and does not send). *)
Definition callback_qua (start_time speed now : R) : Quaternion :=
  createQuaternionFromRPY 0 0 (pos_val start_time speed now).

Definition callback_transform (name : string) (start_time speed now : R)
  : TransformStamped :=
  let p := pos_val start_time speed now in
  mkTransformStamped "map" name (mkVector3 (cos p) (sin p) 0) Quaternion_unset.

Definition sendPositonCallback (name : string) (start_time speed now : R)
  (c : Controller) : Controller :=
  publish_transform (callback_transform name start_time speed now) c.

(** ** Timer registry *)

(** Dropping the last handle on timer [h] removes it from the manager. *)
Definition release_timer (h : nat) (tm : list (nat * TimerCallback))
  : list (nat * TimerCallback) :=
  filter (λ e, e.1 ≠ h) tm.

(** [pub_timer_map_[name] = node_handle_.createTimer(Duration(0.05), ...)]:
    the new timer is created with the clock value [now] bound into its
    callback, then the map slot is overwritten; the handle the slot held
    before, if any, is dropped. *)
Definition createTimer (name : string) (speed : R) (now : R) (c : Controller)
  : Controller :=
  let h := next_handle c in
  let tm := timer_manager c ++ [(h, mkTimerCallback name now speed)] in
  let tm' := match pub_timer_map_ c !! name with
             | Some old => release_timer old tm
             | None => tm
             end in
  mkController (<[name := h]> (pub_timer_map_ c)) tm' (S h)
               (pub_msg_ c) (pub_transform_ c).

Definition run_callback (cb : TimerCallback) (now : R) (c : Controller)
  : Controller :=
  sendPositonCallback (cb_name cb) (cb_start_time cb) (cb_speed cb) now c.

Definition find_timer (h : nat) (tm : list (nat * TimerCallback))
  : option TimerCallback :=
  (λ r, r.2.2) <$> list_find (λ e, e.1 = h) tm.

(** One firing of timer [h] with the clock at [now]; a handle that is not
    in the manager (a removed timer) fires nothing. *)
Definition fire (h : nat) (now : R) (c : Controller) : Controller :=
  match find_timer h (timer_manager c) with
  | Some cb => run_callback cb now c
  | None => c
  end.

(** One tick: every timer in the manager fires once, clock at [now]. *)
Definition tick (now : R) (c : Controller) : Controller :=
  foldl (λ acc e, fire e.1 now acc) c (timer_manager c).

(** Number of timers in the manager that publish for [name]. *)
Definition active_schedules (name : string) (c : Controller) : nat :=
  length (filter (λ e, cb_name e.2 = name) (timer_manager c)).

(** ** Command dispatcher: the [switch (c)] of [run] *)

Definition dispatch (c : Z) (ctl : Controller) : Controller :=
  if c =? KEYCODE_1 then sendPositon "table" 0.0 0.0 ctl
  else if c =? KEYCODE_2 then sendPositon "table" 0.5 0.0 ctl
  else if c =? KEYCODE_3 then sendPositon "table" 0.0 0.5 ctl
  else if c =? KEYCODE_G then sendGraspedMessage "bear_doll" ctl
  else if c =? KEYCODE_H then sendGraspedMessage "dog_doll" ctl
  else if c =? KEYCODE_I then sendGraspedMessage "rabbit_doll" ctl
  else if c =? KEYCODE_R then sendReleasedMessage ctl
  else ctl.

(** ** Terminal, keyboard and the controller loop *)

(** [struct termios], the fields [run] touches. *)
Record termios := mkTermios { c_lflag : Z; c_cc_VEOL : Z; c_cc_VEOF : Z }.

(** Local-mode bits of <termios.h> (Linux values). *)
Definition ICANON : Z := 0x2.
Definition ECHO : Z := 0x8.

(** [raw.c_lflag &=~ (ICANON | ECHO); raw.c_cc[VEOL] = 1; raw.c_cc[VEOF] = 2] *)
Definition make_raw (cooked : termios) : termios :=
  mkTermios (Z.land (c_lflag cooked) (Z.lnot (Z.lor ICANON ECHO))) 1 2.

Definition EXIT_SUCCESS : Z := 0.
Definition EXIT_FAILURE : Z := 1.

(** [sizeof(buf)] for [char buf[1024]]. *)
Definition sizeof_buf : Z := 1024.

(** The process state [run] works on: the controller object, the terminal
    attributes of descriptor 0, the local array [buf], and the flag that
    [ros::shutdown()] sets ([ros::ok()] is its negation). *)
Record World := mkWorld {
  ctl : Controller;
  tty : termios;
  buf : list Z;
  shutdown_flag : bool
}.

Definition set_ctl (c : Controller) (w : World) : World :=
  mkWorld c (tty w) (buf w) (shutdown_flag w).
Definition set_tty (t : termios) (w : World) : World :=
  mkWorld (ctl w) t (buf w) (shutdown_flag w).
Definition set_buf (b : list Z) (w : World) : World :=
  mkWorld (ctl w) (tty w) b (shutdown_flag w).

Definition ros_ok (w : World) : bool := negb (shutdown_flag w).

(** [rosSigintHandler]: [ros::shutdown()]. *)
Definition rosSigintHandler (w : World) : World :=
  mkWorld (ctl w) (tty w) (buf w) true.

(** What the kernel answers to [read(kfd, &buf, sizeof(buf))]: an error, or
    the bytes pending on the descriptor (none at end of input). *)
Inductive ReadResult :=
| ReadFails
| ReadGives (pending : list Z).

(** The environment of one loop iteration: the value [select] returns in
    [canReceive], the answer to [read] should it be called, the timers the
    manager finds due during [ros::spinOnce()] each with the clock value
    its callback sees, and whether the interrupt signal arrives before the
    next [ros::ok()] test. Inbound messages are only logged by
    [receiveMessageCallback] and are left out. *)
Record Iteration := mkIteration {
  it_select : Z;
  it_read : ReadResult;
  it_due : list (nat * R);
  it_sigint : bool
}.

Definition canReceive (it : Iteration) : Z := it_select it.

(** [read] returns -1 on error, else the number of bytes copied to the
    front of [buf]: all that is pending, at most [count]. *)
Definition read (r : ReadResult) (count : Z) (b : list Z) : Z * list Z :=
  match r with
  | ReadFails => (-1, b)
  | ReadGives pending =>
      let n := Z.min (Z.of_nat (length pending)) count in
      (n, take (Z.to_nat n) pending ++ drop (Z.to_nat n) b)
  end.

(** [buf[i]]; [None] when the index is outside the array. *)
Definition index_buf (b : list Z) (i : Z) : option Z :=
  if (0 <=? i) && (i <? sizeof_buf) then b !! Z.to_nat i else None.

(** How a piece of [run] ends: the process has terminated with a status,
    or it has made an out-of-bounds array access (behaviour undefined), or
    it is still going. *)
Inductive Outcome :=
| Exited (status : Z) (w : World)
| Undefined (w : World)
| Running (w : World).

(** [ros::spinOnce()]: the due timers fire in order. *)
Definition spinOnce (due : list (nat * R)) (c : Controller) : Controller :=
  foldl (λ acc d, fire d.1 d.2 acc) c due.

(** The keyboard part of the loop body. *)
Definition poll_keyboard (it : Iteration) (w : World) : Outcome :=
  if canReceive it =? 0 then Running w
  else
    let '(ret, b) := read (it_read it) sizeof_buf (buf w) in
    if ret <? 0 then Exited EXIT_FAILURE (set_buf b w)
    else
      match index_buf b (ret - 1) with
      | None => Undefined (set_buf b w)
      | Some c => Running (set_ctl (dispatch c (ctl w)) (set_buf b w))
      end.

Definition loop_body (it : Iteration) (w : World) : Outcome :=
  match poll_keyboard it w with
  | Running w1 =>
      let w2 := set_ctl (spinOnce (it_due it) (ctl w1)) w1 in
      Running (if it_sigint it then rosSigintHandler w2 else w2)
  | o => o
  end.

(** [while (ros::ok()) { ... }] followed by the restoration of the
    terminal and [return EXIT_SUCCESS]. The list holds the environment of
    the iterations observed; when it is used up with the loop still going
    the result is [Running]. *)
Fixpoint loop (cooked : termios) (its : list Iteration) (w : World)
  : Outcome :=
  if ros_ok w then
    match its with
    | [] => Running w
    | it :: rest =>
        match loop_body it w with
        | Running w' => loop cooked rest w'
        | o => o
        end
    end
  else Exited EXIT_SUCCESS (set_tty cooked w).

(** [run]. [tty0] is the terminal on entry, [garbage] the indeterminate
    initial contents of [buf], [t1 t2 t3] the clock at the three
    [createTimer] calls. *)
Definition run (tty0 : termios) (garbage : nat → Z) (t1 t2 t3 : R)
  (its : list Iteration) : Outcome :=
  let cooked := tty0 in
  let raw := make_raw cooked in
  let c := createTimer "rabbit_doll" 0.7 t3
             (createTimer "dog_doll" 0.6 t2
                (createTimer "bear_doll" 0.5 t1 Controller_init)) in
  loop cooked its
       (mkWorld c raw (garbage <$> seq 0 (Z.to_nat sizeof_buf)) false).

(** ** Histories of controller operations *)

(** What can happen to a controller: a registration, a key handed to the
    dispatcher, a firing of a timer. *)
Inductive Op :=
| OpCreateTimer (name : string) (speed now : R)
| OpKey (c : Z)
| OpFire (h : nat) (now : R).

Definition step (o : Op) (c : Controller) : Controller :=
  match o with
  | OpCreateTimer name speed now => createTimer name speed now c
  | OpKey k => dispatch k c
  | OpFire h now => fire h now c
  end.

Definition exec (ops : list Op) (c : Controller) : Controller :=
  foldl (λ acc o, step o acc) c ops.

(** [registers name o]: [o] is a registration for [name]. *)
Definition registers (name : string) (o : Op) : Prop :=
  match o with
  | OpCreateTimer n _ _ => n = name
  | _ => False
  end.

(** The transforms published between state [c] and a later state [c']. *)
Definition new_transforms (c c' : Controller) : list TransformStamped :=
  drop (length (pub_transform_ c)) (pub_transform_ c').

Definition new_msgs (c c' : Controller) : list string :=
  drop (length (pub_msg_ c)) (pub_msg_ c').

(** Consistency of the registry with the timer manager: handles in the
    manager are distinct and already issued, every timer in the manager is
    the one its name maps to, and every map slot holds a live timer bound
    to that name. *)
Record registry_ok (c : Controller) : Prop := mkRegistryOk {
  ok_nodup : NoDup (timer_manager c).*1;
  ok_timer : ∀ h cb, (h, cb) ∈ timer_manager c →
      (h < next_handle c)%nat ∧ pub_timer_map_ c !! cb_name cb = Some h;
  ok_slot : ∀ name h, pub_timer_map_ c !! name = Some h →
      ∃ cb, (h, cb) ∈ timer_manager c ∧ cb_name cb = name
}.

(** The transform a timer's callback publishes with the clock at [now]. *)
Definition timer_output (now : R) (e : nat * TimerCallback)
  : TransformStamped :=
  callback_transform (cb_name e.2) (cb_start_time e.2) (cb_speed e.2) now.

(** The [char] value of a character. *)
Definition char (a : ascii) : Z := Z.of_N (N_of_ascii a).

(** The keys the [switch] has a case for. *)
Definition recognized_keys : list Z :=
  [KEYCODE_1; KEYCODE_2; KEYCODE_3; KEYCODE_G; KEYCODE_H; KEYCODE_I;
   KEYCODE_R].

(** The process state an outcome carries. *)
Definition world_of (o : Outcome) : World :=
  match o with
  | Exited _ w => w
  | Undefined w => w
  | Running w => w
  end.

(** The pose of the table at [(x, y, 0)], rotation not set. *)
Definition table_pose (x y : R) : TransformStamped :=
  mkTransformStamped "map" "table" (mkVector3 x y 0) Quaternion_unset.

(** [c'] has the registry of [c]: the same slots, timers and handles. *)
Definition same_registry (c c' : Controller) : Prop :=
  pub_timer_map_ c' = pub_timer_map_ c ∧
  timer_manager c' = timer_manager c ∧
  next_handle c' = next_handle c.

(** The controller when [run] enters its loop. *)
Definition controller_at_loop_entry (t1 t2 t3 : R) : Controller :=
  createTimer "rabbit_doll" 0.7 t3
    (createTimer "dog_doll" 0.6 t2
       (createTimer "bear_doll" 0.5 t1 Controller_init)).

(** ** The help text and the names the program works with *)

(** [showHelp]: the lines written to standard output by [puts], in order.
    [run] calls it once, before the timers are created; standard output is
    not part of [World]. *)
Definition showHelp : list string :=
  ["---------------------------";
   "-- Object Controller --";
   "---------------------------";
   "1 : Move Table to Position1";
   "2 : Move Table to Position2";
   "3 : Move Table to Position3";
   "g : Send Grasped bear_doll";
   "h : Send Grasped dog_doll";
   "i : Send Grasped rabbit_doll";
   "r : Send Released";
   "---------------------------"].

(** The key a help line of the shape "k : text" documents. *)
Definition help_key (line : string) : option Z :=
  match line with
  | String k (String " " (String ":" (String " " _))) => Some (char k)
  | _ => None
  end.

Definition help_keys : list Z := omap help_key showHelp.

(** The object a help line of the shape "k : Send Grasped name" names. *)
Definition help_grasped (line : string) : option (Z * string) :=
  match line with
  | String k (String " " (String ":" (String " " rest))) =>
      if String.prefix "Send Grasped " rest
      then Some (char k, String.substring 13 (String.length rest - 13) rest)
      else None
  | _ => None
  end.

(** The names [run] creates timers for. *)
Definition tracked_names : list string :=
  ["bear_doll"; "dog_doll"; "rabbit_doll"].

(** The three places the table keys send the table to. *)
Definition table_positions : list Vector3 :=
  [mkVector3 0.0 0.0 0; mkVector3 0.5 0.0 0; mkVector3 0.0 0.5 0].

(** A pose of the kind [run] publishes: in frame "map", rotation not set,
    and either the table at one of its three places or a tracked object
    on the unit circle in the plane [z = 0]. *)
Definition known_pose (ts : TransformStamped) : Prop :=
  frame_id ts = "map" ∧ rotation ts = Quaternion_unset ∧
  ((child_frame_id ts = "table" ∧ translation ts ∈ table_positions) ∨
   (child_frame_id ts ∈ tracked_names ∧
    ((v_x (translation ts))² + (v_y (translation ts))² = 1)%R ∧
    v_z (translation ts) = 0%R)).

(** A message of the kind [run] publishes. *)
Definition known_message (m : string) : Prop :=
  m = "released" ∨ ∃ name, name ∈ tracked_names ∧ m = "grasped," +:+ name.

(** What holds of a controller whose publications so far are all of the
    known kinds and whose timers are all for tracked names. *)
Definition publishes_known (c : Controller) : Prop :=
  Forall known_pose (pub_transform_ c) ∧
  Forall known_message (pub_msg_ c) ∧
  ∀ h cb, (h, cb) ∈ timer_manager c → cb_name cb ∈ tracked_names.

(** * Lemmas *)

Section registry.

Lemma publish_transform_registry ts c :
  pub_timer_map_ (publish_transform ts c) = pub_timer_map_ c ∧
  timer_manager (publish_transform ts c) = timer_manager c ∧
  next_handle (publish_transform ts c) = next_handle c.
Proof. done. Qed.

Lemma publish_msg_registry s c :
  pub_timer_map_ (publish_msg s c) = pub_timer_map_ c ∧
  timer_manager (publish_msg s c) = timer_manager c ∧
  next_handle (publish_msg s c) = next_handle c.
Proof. done. Qed.

Lemma dispatch_registry k c :
  pub_timer_map_ (dispatch k c) = pub_timer_map_ c ∧
  timer_manager (dispatch k c) = timer_manager c ∧
  next_handle (dispatch k c) = next_handle c.
Proof.
  unfold dispatch.
  repeat (case_match; [by cbv [sendPositon sendGraspedMessage
    sendReleasedMessage publish_transform publish_msg] |]).
  done.
Qed.

Lemma fire_registry h now c :
  pub_timer_map_ (fire h now c) = pub_timer_map_ c ∧
  timer_manager (fire h now c) = timer_manager c ∧
  next_handle (fire h now c) = next_handle c.
Proof. unfold fire. by case_match. Qed.


Lemma spinOnce_registry due c :
  pub_timer_map_ (spinOnce due c) = pub_timer_map_ c ∧
  timer_manager (spinOnce due c) = timer_manager c ∧
  next_handle (spinOnce due c) = next_handle c.
Proof.
  revert c. induction due as [|d due IH]; intros c; [done|].
  change (spinOnce (d :: due) c) with (spinOnce due (fire d.1 d.2 c)).
  destruct (IH (fire d.1 d.2 c)) as (-> & -> & ->).
  apply fire_registry.
Qed.

Lemma registry_ok_same c c' :
  pub_timer_map_ c' = pub_timer_map_ c →
  timer_manager c' = timer_manager c →
  next_handle c' = next_handle c →
  registry_ok c → registry_ok c'.
Proof.
  intros Hm Ht Hn [H1 H2 H3].
  split; rewrite ?Hm, ?Ht, ?Hn; auto.
Qed.

Lemma registry_ok_init : registry_ok Controller_init.
Proof.
  split; cbn.
  - constructor.
  - intros h cb Hin. by apply elem_of_nil in Hin.
  - intros name h Hl. by rewrite lookup_empty in Hl.
Qed.

Lemma NoDup_fst_filter {A} (P : nat * A → Prop) `{∀ x, Decision (P x)}
  (l : list (nat * A)) :
  NoDup l.*1 → NoDup (filter P l).*1.
Proof.
  induction l as [|x l IH]; [done|].
  rewrite fmap_cons, NoDup_cons. intros [Hx Hl].
  rewrite filter_cons. case_decide; [|by auto].
  rewrite fmap_cons, NoDup_cons. split; [|by auto].
  intros Hin. apply Hx.
  apply list_elem_of_fmap in Hin as (y & -> & Hy).
  apply list_elem_of_filter in Hy as [_ Hy].
  by apply list_elem_of_fmap_2.
Qed.

Lemma NoDup_fst_functional {A} (l : list (nat * A)) h a b :
  NoDup l.*1 → (h, a) ∈ l → (h, b) ∈ l → a = b.
Proof.
  induction l as [|x l IH]; intros Hnd Ha Hb.
  - by apply elem_of_nil in Ha.
  - rewrite fmap_cons, NoDup_cons in Hnd. destruct Hnd as [Hx Hl].
    apply elem_of_cons in Ha as [Ha|Ha], Hb as [Hb|Hb].
    + congruence.
    + subst x. destruct Hx. by apply (list_elem_of_fmap_2 fst) in Hb.
    + subst x. destruct Hx. by apply (list_elem_of_fmap_2 fst) in Ha.
    + by apply IH.
Qed.

Lemma createTimer_ok name speed now c :
  registry_ok c → registry_ok (createTimer name speed now c).
Proof.
  intros [Hnd Htm Hsl].
  assert (Hfresh : next_handle c ∉ (timer_manager c).*1).
  { intros Hin. apply list_elem_of_fmap in Hin as ([h cb] & Heq & Hin).
    cbn in Heq. subst h. apply Htm in Hin as [Hlt _]. lia. }
  assert (Hnd' : NoDup (timer_manager c
                        ++ [(next_handle c, mkTimerCallback name now speed)]).*1).
  { rewrite fmap_app. apply NoDup_app. split; [done|]. split.
    - intros x Hx Hx'. cbn in Hx'. apply list_elem_of_singleton in Hx'.
      by subst x.
    - cbn. apply NoDup_singleton. }
  unfold createTimer. destruct (pub_timer_map_ c !! name) as [old|] eqn:Hold.
  - split; cbn.
    + by apply NoDup_fst_filter.
    + intros h cb Hin. apply list_elem_of_filter in Hin as [Hne Hin].
      cbn in Hne. apply elem_of_app in Hin as [Hin|Hin].
      * destruct (Htm _ _ Hin) as [Hlt Hmap]. split; [lia|].
        rewrite lookup_insert_ne; [done|].
        intros Heq. apply Hne. congruence.
      * apply list_elem_of_singleton in Hin. injection Hin as -> ->.
        cbn. split; [lia|]. by rewrite lookup_insert_eq.
    + intros n h Hl. destruct (decide (n = name)) as [->|Hn].
      * rewrite lookup_insert_eq in Hl. injection Hl as <-.
        exists (mkTimerCallback name now speed). split; [|done].
        apply list_elem_of_filter. split.
        -- cbn. intros <-. destruct (Hsl _ _ Hold) as (cb & Hin & _).
           apply Htm in Hin as [Hlt _]. lia.
        -- apply elem_of_app. right. by apply list_elem_of_singleton.
      * rewrite lookup_insert_ne in Hl by done.
        destruct (Hsl _ _ Hl) as (cb & Hin & Hcb).
        exists cb. split; [|done].
        apply list_elem_of_filter. split.
        -- cbn. intros ->. destruct (Htm _ _ Hin) as [_ Hmap].
           rewrite Hcb in Hmap.
           destruct (Hsl _ _ Hold) as (cb' & Hin' & Hcb').
           assert (cb = cb') as <-; [|congruence].
           by apply (NoDup_fst_functional (timer_manager c) old).
        -- apply elem_of_app. by left.
  - split; cbn.
    + done.
    + intros h cb Hin. apply elem_of_app in Hin as [Hin|Hin].
      * destruct (Htm _ _ Hin) as [Hlt Hmap]. split; [lia|].
        rewrite lookup_insert_ne; [done|]. intros Heq. congruence.
      * apply list_elem_of_singleton in Hin. injection Hin as -> ->.
        cbn. split; [lia|]. by rewrite lookup_insert_eq.
    + intros n h Hl. destruct (decide (n = name)) as [->|Hn].
      * rewrite lookup_insert_eq in Hl. injection Hl as <-.
        exists (mkTimerCallback name now speed). split; [|done].
        apply elem_of_app. right. by apply list_elem_of_singleton.
      * rewrite lookup_insert_ne in Hl by done.
        destruct (Hsl _ _ Hl) as (cb & Hin & Hcb).
        exists cb. split; [|done]. apply elem_of_app. by left.
Qed.

End registry.

Section histories.

Lemma step_ok o c : registry_ok c → registry_ok (step o c).
Proof.
  destruct o as [name speed now|k|h now]; cbn.
  - apply createTimer_ok.
  - destruct (dispatch_registry k c) as (Hm & Ht & Hn).
    by apply registry_ok_same.
  - destruct (fire_registry h now c) as (Hm & Ht & Hn).
    by apply registry_ok_same.
Qed.

Lemma exec_snoc ops o c : exec (ops ++ [o]) c = step o (exec ops c).
Proof. unfold exec. by rewrite foldl_snoc. Qed.

Lemma exec_app ops ops' c : exec (ops ++ ops') c = exec ops' (exec ops c).
Proof. unfold exec. by rewrite foldl_app. Qed.

Lemma exec_ok ops c : registry_ok c → registry_ok (exec ops c).
Proof.
  revert c. induction ops as [|o ops IH]; intros c Hc; [done|].
  apply (IH (step o c)). by apply step_ok.
Qed.

Lemma find_timer_elem h cb (tm : list (nat * TimerCallback)) :
  NoDup tm.*1 → (h, cb) ∈ tm → find_timer h tm = Some cb.
Proof.
  intros Hnd Hin. unfold find_timer.
  destruct (list_find (λ e, e.1 = h) tm) as [[i [h' cb']]|] eqn:Hf; cbn.
  - apply list_find_Some in Hf as (Hi & Hh & _). cbn in Hh. subst h'.
    f_equal. apply (NoDup_fst_functional tm h); [done| |done].
    apply list_elem_of_lookup. by exists i.
  - apply list_find_None in Hf.
    rewrite Forall_forall in Hf. by destruct (Hf _ Hin).
Qed.

Lemma find_timer_Some h cb (tm : list (nat * TimerCallback)) :
  find_timer h tm = Some cb → (h, cb) ∈ tm.
Proof.
  unfold find_timer.
  destruct (list_find (λ e, e.1 = h) tm) as [[i [h' cb']]|] eqn:Hf;
    cbn; [|done].
  intros [= <-]. apply list_find_Some in Hf as (Hi & Hh & _).
  cbn in Hh. subst h'. apply list_elem_of_lookup. by exists i.
Qed.

(** A registration that is not for [name] keeps [name]'s slot and timer. *)
Lemma createTimer_other name n speed now c h cb :
  registry_ok c → n ≠ name →
  pub_timer_map_ c !! name = Some h → (h, cb) ∈ timer_manager c →
  cb_name cb = name →
  pub_timer_map_ (createTimer n speed now c) !! name = Some h ∧
  (h, cb) ∈ timer_manager (createTimer n speed now c).
Proof.
  intros [Hnd Htm Hsl] Hn Hmap Hin Hcb. unfold createTimer; cbn.
  split; [by rewrite lookup_insert_ne|].
  destruct (pub_timer_map_ c !! n) as [old|] eqn:Hold.
  - apply list_elem_of_filter. split; [|apply elem_of_app; by left].
    cbn. intros ->. destruct (Hsl _ _ Hold) as (cb' & Hin' & Hcb').
    apply Hn. rewrite <- Hcb, <- Hcb'. f_equal.
    by apply (NoDup_fst_functional (timer_manager c) old).
  - apply elem_of_app. by left.
Qed.

Lemma step_keeps_timer name o c h cb :
  registry_ok c → ¬ registers name o →
  pub_timer_map_ c !! name = Some h → (h, cb) ∈ timer_manager c →
  cb_name cb = name →
  pub_timer_map_ (step o c) !! name = Some h ∧
  (h, cb) ∈ timer_manager (step o c).
Proof.
  intros Hok Hreg Hmap Hin Hcb.
  destruct o as [n speed now|k|h' now]; cbn in *.
  - by apply createTimer_other.
  - by destruct (dispatch_registry k c) as (-> & -> & _).
  - by destruct (fire_registry h' now c) as (-> & -> & _).
Qed.

Lemma exec_keeps_timer name ops c h cb :
  registry_ok c → Forall (λ o, ¬ registers name o) ops →
  pub_timer_map_ c !! name = Some h → (h, cb) ∈ timer_manager c →
  cb_name cb = name →
  pub_timer_map_ (exec ops c) !! name = Some h ∧
  (h, cb) ∈ timer_manager (exec ops c).
Proof.
  revert c. induction ops as [|o ops IH]; intros c Hok Hall Hmap Hin Hcb.
  - done.
  - apply Forall_cons in Hall as [Ho Hall].
    destruct (step_keeps_timer name o c h cb) as [Hmap' Hin']; try done.
    apply (IH (step o c)); try done. by apply step_ok.
Qed.

(** Right after a registration the slot holds the new timer. *)
Lemma createTimer_slot name speed now c :
  registry_ok c →
  pub_timer_map_ (createTimer name speed now c) !! name
    = Some (next_handle c) ∧
  (next_handle c, mkTimerCallback name now speed)
    ∈ timer_manager (createTimer name speed now c).
Proof.
  intros Hok. pose proof (createTimer_ok name speed now c Hok) as Hok'.
  assert (Hs : pub_timer_map_ (createTimer name speed now c) !! name
               = Some (next_handle c)).
  { unfold createTimer; cbn. by rewrite lookup_insert_eq. }
  split; [done|].
  destruct (ok_slot _ Hok' _ _ Hs) as (cb & Hin & Hcb).
  assert (Hnew : (next_handle c, mkTimerCallback name now speed)
                 ∈ timer_manager c
                   ++ [(next_handle c, mkTimerCallback name now speed)]).
  { apply elem_of_app. right. by apply list_elem_of_singleton. }
  revert Hin. unfold createTimer; cbn.
  destruct (pub_timer_map_ c !! name) as [old|] eqn:Hold; [|done].
  intros Hin. apply list_elem_of_filter in Hin as [Hne _]. cbn in Hne.
  apply list_elem_of_filter. by split.
Qed.

Lemma createTimer_replaces name speed now c old :
  pub_timer_map_ c !! name = Some old →
  timer_manager (createTimer name speed now c)
    = release_timer old
        (timer_manager c ++ [(next_handle c, mkTimerCallback name now speed)]).
Proof. intros Hold. unfold createTimer; cbn. by rewrite Hold. Qed.

Lemma fire_elem h cb now c :
  registry_ok c → (h, cb) ∈ timer_manager c →
  fire h now c = run_callback cb now c.
Proof.
  intros Hok Hin. unfold fire.
  by rewrite (find_timer_elem h cb) by (apply Hok || done).
Qed.

Lemma new_transforms_publish ts c :
  new_transforms c (publish_transform ts c) = [ts].
Proof. unfold new_transforms; cbn. by rewrite drop_app_length. Qed.

Lemma new_msgs_publish s c : new_msgs c (publish_msg s c) = [s].
Proof. unfold new_msgs; cbn. by rewrite drop_app_length. Qed.

Lemma new_msgs_publish_transform ts c :
  new_msgs c (publish_transform ts c) = [].
Proof. unfold new_msgs; cbn. by rewrite drop_all. Qed.

Lemma new_transforms_self c : new_transforms c c = [].
Proof. unfold new_transforms. by rewrite drop_all. Qed.

End histories.

Section schedules.

Lemma schedules_for_name name c e :
  registry_ok c → e ∈ filter (λ e, cb_name e.2 = name) (timer_manager c) →
  pub_timer_map_ c !! name = Some e.1.
Proof.
  intros Hok He. apply list_elem_of_filter in He as [Hn Hin].
  destruct e as [h cb]. cbn in *. subst name. by apply (ok_timer _ Hok).
Qed.

Lemma NoDup_constant_length (l : list nat) (a : nat) :
  NoDup l → (∀ x, x ∈ l → x = a) → (length l ≤ 1)%nat.
Proof.
  intros Hnd Hall. destruct l as [|x [|y l]]; cbn; [lia|lia|].
  exfalso. apply NoDup_cons in Hnd as [Hx _]. apply Hx.
  rewrite (Hall x), (Hall y); [left | right; left | left].
Qed.

Lemma active_schedules_le_1 name c :
  registry_ok c → (active_schedules name c ≤ 1)%nat.
Proof.
  intros Hok. unfold active_schedules.
  set (l := filter (λ e, cb_name e.2 = name) (timer_manager c)).
  rewrite <- (length_fmap fst l).
  destruct (pub_timer_map_ c !! name) as [h|] eqn:Hmap.
  - apply (NoDup_constant_length _ h).
    + apply NoDup_fst_filter, Hok.
    + intros x Hx. apply list_elem_of_fmap in Hx as (e & -> & He).
      apply (schedules_for_name name c e Hok) in He. congruence.
  - destruct l as [|e l'] eqn:Hl; cbn; [lia|].
    assert (He : e ∈ l) by (rewrite Hl; left).
    apply (schedules_for_name name c e Hok) in He. congruence.
Qed.

Lemma schedules_singleton name c h cb :
  registry_ok c → (h, cb) ∈ timer_manager c → cb_name cb = name →
  filter (λ e, cb_name e.2 = name) (timer_manager c) = [(h, cb)].
Proof.
  intros Hok Hin Hcb.
  pose proof (active_schedules_le_1 name c Hok) as Hle.
  unfold active_schedules in Hle.
  assert (He : (h, cb) ∈ filter (λ e, cb_name e.2 = name) (timer_manager c)).
  { apply list_elem_of_filter. by split. }
  destruct (filter (λ e, cb_name e.2 = name) (timer_manager c))
    as [|x [|y l]]; cbn in Hle.
  - by apply elem_of_nil in He.
  - apply list_elem_of_singleton in He. by subst x.
  - lia.
Qed.

Lemma fire_list_output now (l : list (nat * TimerCallback)) c :
  registry_ok c → (∀ e, e ∈ l → e ∈ timer_manager c) →
  pub_transform_ (foldl (λ acc e, fire e.1 now acc) c l)
    = pub_transform_ c ++ (timer_output now <$> l).
Proof.
  revert c. induction l as [|e l IH]; intros c Hok Hsub; cbn.
  - by rewrite app_nil_r.
  - destruct (fire_registry e.1 now c) as (Hm & Ht & Hn).
    rewrite IH.
    + destruct e as [h cb]. rewrite (fire_elem h cb); [|done|apply Hsub; left].
      cbn. by rewrite <- app_assoc.
    + by apply (registry_ok_same c).
    + intros e' He'. rewrite Ht. apply Hsub. by right.
Qed.

Lemma tick_output now c :
  registry_ok c →
  new_transforms c (tick now c) = timer_output now <$> timer_manager c.
Proof.
  intros Hok. unfold new_transforms, tick.
  rewrite fire_list_output by done. by rewrite drop_app_length.
Qed.

Lemma filter_timer_output now name (l : list (nat * TimerCallback)) :
  filter (λ ts, child_frame_id ts = name) (timer_output now <$> l)
    = timer_output now <$> filter (λ e, cb_name e.2 = name) l.
Proof.
  induction l as [|e l IH]; [done|].
  rewrite fmap_cons, !filter_cons. cbn.
  case_decide; rewrite IH; done.
Qed.

End schedules.

(** * The timer registry *)

(** C1. After [createTimer name speed] called with the clock at [T0], and
    whatever happens next short of another registration of [name], the
    slot of [name] holds a live timer whose every firing, with the clock
    at [now], publishes for [name] the position [(cos t, sin t, 0)] with
    [t = T0 + speed * now]; any firing that publishes for [name] publishes
    that position, so [T0] is never refreshed; and [t] is the elapsed-time
    phase [T0 + speed * (now - T0)] only when [speed * T0 = 0]. *)
Theorem timer_firing_position (before after : list Op) (name : string)
  (speed T0 : R) :
  Forall (λ o, ¬ registers name o) after →
  let c := exec after (createTimer name speed T0 (exec before Controller_init)) in
  (∃ h, pub_timer_map_ c !! name = Some h ∧
     ∀ now, fire h now c =
       publish_transform
         (mkTransformStamped "map" name
            (mkVector3 (cos (T0 + speed * now)) (sin (T0 + speed * now)) 0)
            Quaternion_unset) c) ∧
  (∀ h now ts, ts ∈ new_transforms c (fire h now c) →
     child_frame_id ts = name →
     translation ts
       = mkVector3 (cos (T0 + speed * now)) (sin (T0 + speed * now)) 0) ∧
  (∀ now, pos_val T0 speed now = (T0 + speed * (now - T0))%R
          ↔ (speed * T0 = 0)%R).
Proof.
  intros Hafter c.
  set (c0 := exec before Controller_init) in *.
  assert (Hok0 : registry_ok c0) by apply exec_ok, registry_ok_init.
  set (c1 := createTimer name speed T0 c0) in *.
  assert (Hok1 : registry_ok c1) by by apply createTimer_ok.
  assert (Hok : registry_ok c) by by apply exec_ok.
  destruct (createTimer_slot name speed T0 c0 Hok0) as [Hs1 Hin1].
  destruct (exec_keeps_timer name after c1 (next_handle c0)
              (mkTimerCallback name T0 speed) Hok1 Hafter Hs1 Hin1 eq_refl)
    as [Hs Hin].
  fold c in Hs, Hin.
  split; [|split].
  - exists (next_handle c0). split; [done|]. intros now.
    by rewrite (fire_elem _ _ now c Hok Hin).
  - intros h now ts Hts Hchild. unfold fire in Hts.
    destruct (find_timer h (timer_manager c)) as [cb|] eqn:Hf.
    + apply find_timer_Some in Hf.
      unfold run_callback, sendPositonCallback in Hts.
      rewrite new_transforms_publish in Hts.
      apply list_elem_of_singleton in Hts. subst ts. cbn in Hchild.
      destruct (ok_timer _ Hok _ _ Hf) as [_ Hmap].
      rewrite Hchild, Hs in Hmap. injection Hmap as <-.
      by rewrite (NoDup_fst_functional _ _ _ _ (ok_nodup _ Hok) Hf Hin).
    + rewrite new_transforms_self in Hts. by apply elem_of_nil in Hts.
  - intros now. unfold pos_val. split; intros H; lra.
Qed.

(** C1 at a concrete history: "bear_doll" registered at clock 10 after
    "dog_doll", then a key and a firing. *)
Lemma timer_firing_position_witness :
  Forall (λ o, ¬ registers "bear_doll" o) [OpKey KEYCODE_G; OpFire 1 11%R] ∧
  let c := exec [OpKey KEYCODE_G; OpFire 1 11%R]
             (createTimer "bear_doll" 0.5 10
                (exec [OpCreateTimer "dog_doll" 0.6 9] Controller_init)) in
  ∃ h, pub_timer_map_ c !! "bear_doll" = Some h ∧
     ∀ now, fire h now c =
       publish_transform
         (mkTransformStamped "map" "bear_doll"
            (mkVector3 (cos (10 + 0.5 * now)) (sin (10 + 0.5 * now)) 0)
            Quaternion_unset) c.
Proof.
  assert (H : Forall (λ o, ¬ registers "bear_doll" o)
                [OpKey KEYCODE_G; OpFire 1 11%R]).
  { repeat constructor; cbn; tauto. }
  split; [exact H|].
  exact (proj1 (timer_firing_position [OpCreateTimer "dog_doll" 0.6 9]
            [OpKey KEYCODE_G; OpFire 1 11%R] "bear_doll" 0.5 10 H)).
Defined.

(** C2. In every state the controller can reach, no name has more than one
    timer in the manager; registering a name twice leaves exactly one, the
    slot holds the second, and a tick publishes for that name exactly one
    pose, the second registration's. *)
Theorem one_schedule_per_name (ops : list Op) (name : string) :
  let c := exec ops Controller_init in
  (active_schedules name c ≤ 1)%nat ∧
  ∀ s1 t1 s2 t2,
    let c1 := createTimer name s1 t1 c in
    let c2 := createTimer name s2 t2 c1 in
    active_schedules name c1 = 1%nat ∧
    active_schedules name c2 = 1%nat ∧
    pub_timer_map_ c2 !! name = Some (next_handle c1) ∧
    find_timer (next_handle c) (timer_manager c2) = None ∧
    ∀ now,
      filter (λ ts, child_frame_id ts = name) (new_transforms c2 (tick now c2))
        = [callback_transform name t2 s2 now].
Proof.
  intros c.
  assert (Hok : registry_ok c) by apply exec_ok, registry_ok_init.
  split; [by apply active_schedules_le_1|].
  intros s1 t1 s2 t2 c1 c2.
  assert (Hok1 : registry_ok c1) by by apply createTimer_ok.
  assert (Hok2 : registry_ok c2) by by apply createTimer_ok.
  destruct (createTimer_slot name s1 t1 c Hok) as [Hs1 Hin1].
  destruct (createTimer_slot name s2 t2 c1 Hok1) as [Hs2 Hin2].
  fold c1 in Hs1, Hin1. fold c2 in Hs2, Hin2.
  pose proof (schedules_singleton name c1 _ _ Hok1 Hin1 eq_refl) as Hf1.
  pose proof (schedules_singleton name c2 _ _ Hok2 Hin2 eq_refl) as Hf2.
  split; [|split; [|split; [|split]]].
  - unfold active_schedules. by rewrite Hf1.
  - unfold active_schedules. by rewrite Hf2.
  - done.
  - destruct (find_timer (next_handle c) (timer_manager c2)) as [cb|] eqn:Hf;
      [|done].
    apply find_timer_Some in Hf.
    destruct (ok_timer _ Hok2 _ _ Hf) as [_ Hmap].
    assert (Hold : (next_handle c, cb)
                   ∈ release_timer (next_handle c)
                       (timer_manager c1
                        ++ [(next_handle c1, mkTimerCallback name t2 s2)])).
    { unfold c2 in Hf. by rewrite (createTimer_replaces _ _ _ _ _ Hs1) in Hf. }
    apply list_elem_of_filter in Hold as [Hne _]. by destruct Hne.
  - intros now. rewrite tick_output by done.
    by rewrite filter_timer_output, Hf2.
Qed.

(** C3. The dispatcher follows the key table, case-sensitively: a table
    key publishes one table pose, a grasp key one "grasped,<name>" message,
    "r" one "released" message; every recognized key makes exactly one
    publish call, and any other value leaves the controller as it was. *)
Theorem dispatch_table (ctl0 : Controller) :
  dispatch (char "1") ctl0 = publish_transform (table_pose 0.0 0.0) ctl0 ∧
  dispatch (char "2") ctl0 = publish_transform (table_pose 0.5 0.0) ctl0 ∧
  dispatch (char "3") ctl0 = publish_transform (table_pose 0.0 0.5) ctl0 ∧
  dispatch (char "g") ctl0 = publish_msg "grasped,bear_doll" ctl0 ∧
  dispatch (char "h") ctl0 = publish_msg "grasped,dog_doll" ctl0 ∧
  dispatch (char "i") ctl0 = publish_msg "grasped,rabbit_doll" ctl0 ∧
  dispatch (char "r") ctl0 = publish_msg "released" ctl0 ∧
  new_msgs ctl0 (dispatch (char "g") ctl0) = ["grasped,bear_doll"] ∧
  new_msgs ctl0 (dispatch (char "r") ctl0) = ["released"] ∧
  dispatch (char "x") ctl0 = ctl0 ∧
  dispatch (char "G") ctl0 = ctl0 ∧
  recognized_keys = char <$> ["1"; "2"; "3"; "g"; "h"; "i"; "r"]%char ∧
  (∀ c, c ∈ recognized_keys →
        publish_count (dispatch c ctl0) = S (publish_count ctl0)) ∧
  (∀ c, c ∉ recognized_keys → dispatch c ctl0 = ctl0).
Proof.
  repeat (split; [reflexivity|]).
  split; [|split; [|split; [|split; [|split; [reflexivity|split]]]]].
  - exact (new_msgs_publish "grasped,bear_doll" ctl0).
  - exact (new_msgs_publish "released" ctl0).
  - reflexivity.
  - reflexivity.
  - intros c Hc. unfold recognized_keys in Hc.
    repeat (apply elem_of_cons in Hc as [->|Hc];
            [unfold publish_count; cbn; rewrite length_app; cbn; lia|]).
    by apply elem_of_nil in Hc.
  - intros c Hc. unfold dispatch.
    repeat (case_match;
            [exfalso; apply Hc; unfold recognized_keys;
             match goal with H : (_ =? _) = true |- _ =>
               apply Z.eqb_eq in H; subst c end;
             repeat (first [by left | right])|]).
    done.
Qed.

(** C3 at the controller as [run] sets it up, for the key "x". *)
Lemma dispatch_table_witness :
  (char "x" ∉ recognized_keys) ∧
  dispatch (char "x") Controller_init = Controller_init.
Proof.
  assert (H : char "x" ∉ recognized_keys).
  { apply (bool_decide_unpack _). vm_compute. exact I. }
  split; [exact H|].
  exact (proj2 (proj2 (proj2 (proj2 (proj2 (proj2 (proj2 (proj2 (proj2
    (proj2 (proj2 (proj2 (proj2 (dispatch_table Controller_init))))))))))))) _ H).
Defined.

(** * The motion generator *)

(** C7. The position a firing publishes lies on the unit circle, whatever
    the start time, speed and clock; with speed 0 it is the fixed point
    [(cos start_time, sin start_time, 0)]. *)
Theorem position_on_unit_circle (name : string) (start_time speed now : R)
  (c : Controller) :
  (∃ ts, new_transforms c (sendPositonCallback name start_time speed now c)
           = [ts] ∧
         ((v_x (translation ts))² + (v_y (translation ts))² = 1)%R ∧
         v_z (translation ts) = 0%R) ∧
  new_transforms c (sendPositonCallback name start_time 0 now c)
    = [mkTransformStamped "map" name
         (mkVector3 (cos start_time) (sin start_time) 0) Quaternion_unset].
Proof.
  split.
  - eexists. split; [apply new_transforms_publish|]. cbn.
    split; [|done]. rewrite Rplus_comm. apply sin2_cos2.
  - unfold sendPositonCallback. rewrite new_transforms_publish.
    unfold callback_transform, pos_val.
    by replace (start_time + 0 * now)%R with start_time by lra.
Qed.

Lemma yaw_quaternion (yaw : R) :
  createQuaternionFromRPY 0 0 yaw
    = mkQuaternion 0 0 (sin (yaw * / 2)) (cos (yaw * / 2)).
Proof.
  unfold createQuaternionFromRPY.
  replace (0 * / 2)%R with 0%R by lra. rewrite sin_0, cos_0.
  f_equal; lra.
Qed.

Lemma yaw_quaternion_set (yaw : R) :
  createQuaternionFromRPY 0 0 yaw ≠ Quaternion_unset.
Proof.
  rewrite yaw_quaternion. unfold Quaternion_unset. intros [= Hs Hc].
  pose proof (sin2_cos2 (yaw * / 2)) as H.
  rewrite Hs, Hc in H. unfold Rsqr in H. lra.
Qed.

(** C4, as stated, fails: "bear_doll" registered with the clock at 0 and
    fired with the clock at 1 publishes one pose, and its rotation is not
    the rotation by the heading [0 + 0.5 * 1] about the vertical axis. *)
Lemma heading_not_in_published_pose :
  let c := createTimer "bear_doll" 0.5 0 Controller_init in
  ∃ ts, new_transforms c (fire 0 1%R c) = [ts] ∧
        child_frame_id ts = "bear_doll" ∧
        rotation ts ≠ createQuaternionFromRPY 0 0 (0 + 0.5 * 1).
Proof.
  eexists. split; [|split].
  - apply (new_transforms_publish (callback_transform "bear_doll" 0 0.5 1)).
  - reflexivity.
  - cbn [rotation callback_transform]. intros H. symmetry in H.
    by apply yaw_quaternion_set in H.
Qed.

(** C4, amended. A firing publishes one pose for its object with the
    rotation left unset; the heading [t = start_time + speed * now] only
    goes into a quaternion about the vertical axis that the callback
    computes and does not send; for a positive speed [t] grows strictly
    with the clock. *)
Theorem heading_computed_not_sent (name : string) (start_time speed : R) :
  (∀ now c, ∃ ts,
     new_transforms c (sendPositonCallback name start_time speed now c) = [ts] ∧
     child_frame_id ts = name ∧ rotation ts = Quaternion_unset) ∧
  (∀ now, let t := (start_time + speed * now)%R in
     callback_qua start_time speed now
       = mkQuaternion 0 0 (sin (t * / 2)) (cos (t * / 2)) ∧
     callback_qua start_time speed now ≠ Quaternion_unset) ∧
  (∀ now1 now2, (0 < speed)%R → (now1 < now2)%R →
     (pos_val start_time speed now1 < pos_val start_time speed now2)%R).
Proof.
  split; [|split].
  - intros now c. eexists. split; [apply new_transforms_publish|]. done.
  - intros now t. unfold callback_qua, pos_val. fold t.
    split; [apply yaw_quaternion | apply yaw_quaternion_set].
  - intros now1 now2 Hs Hlt. unfold pos_val. nra.
Qed.

(** C4 amended, for speed 0.5 registered at clock 100 and the firings at
    clocks 100.05 and 100.10. *)
Lemma heading_computed_not_sent_witness :
  (0 < 0.5)%R ∧ (100.05 < 100.10)%R ∧
  (pos_val 100 0.5 100.05 < pos_val 100 0.5 100.10)%R.
Proof.
  assert (H1 : (0 < 0.5)%R) by lra.
  assert (H2 : (100.05 < 100.10)%R) by lra.
  split; [exact H1|]. split; [exact H2|].
  exact (proj2 (proj2 (heading_computed_not_sent "bear_doll" 100 0.5))
           100.05%R 100.10%R H1 H2).
Defined.

(** * The controller loop *)

Section controller_loop.

Lemma same_registry_refl c : same_registry c c.
Proof. done. Qed.

Lemma same_registry_trans c1 c2 c3 :
  same_registry c1 c2 → same_registry c2 c3 → same_registry c1 c3.
Proof. intros (?&?&?) (?&?&?). repeat split; congruence. Qed.

Lemma poll_keyboard_registry it w :
  same_registry (ctl w) (ctl (world_of (poll_keyboard it w))).
Proof.
  unfold poll_keyboard. case_match; [done|].
  destruct (read (it_read it) sizeof_buf (buf w)) as [ret b].
  case_match; [done|]. case_match; [|done].
  cbn. apply dispatch_registry.
Qed.

Lemma loop_body_registry it w :
  same_registry (ctl w) (ctl (world_of (loop_body it w))).
Proof.
  pose proof (poll_keyboard_registry it w) as Hp. unfold loop_body.
  destruct (poll_keyboard it w) as [st w1|w1|w1]; cbn in *; [done|done|].
  apply (same_registry_trans _ _ _ Hp).
  destruct (it_sigint it); cbn; apply spinOnce_registry.
Qed.

Lemma loop_registry cooked its w :
  same_registry (ctl w) (ctl (world_of (loop cooked its w))).
Proof.
  revert w. induction its as [|it its IH]; intros w; cbn.
  - by destruct (ros_ok w).
  - destruct (ros_ok w); [|done].
    pose proof (loop_body_registry it w) as Hb.
    destruct (loop_body it w) as [st w1|w1|w1]; cbn in *; try done.
    apply (same_registry_trans _ _ _ Hb), IH.
Qed.

Lemma set_buf_same w : set_buf (buf w) w = w.
Proof. by destruct w. Qed.

(** A read of at least one byte: the byte at [ret - 1] is the last of
    the bytes copied. *)
Lemma read_last (pending b : list Z) :
  pending ≠ [] →
  ∃ c, last (take (Z.to_nat sizeof_buf) pending) = Some c ∧
       let r := read (ReadGives pending) sizeof_buf b in
       1 ≤ r.1 ≤ sizeof_buf ∧ index_buf r.2 (r.1 - 1) = Some c.
Proof.
  intros Hne. cbn [read]. unfold sizeof_buf.
  set (n := Z.min (Z.of_nat (length pending)) 1024).
  assert (Hlen : (0 < length pending)%nat).
  { destruct pending; [done|cbn; lia]. }
  assert (Hn : 1 ≤ n ≤ 1024) by (unfold n; lia).
  assert (Htake : take (Z.to_nat 1024) pending = take (Z.to_nat n) pending).
  { unfold n. destruct (Z.min_spec (Z.of_nat (length pending)) 1024)
      as [[Hlt ->]|[Hge ->]]; [|done].
    rewrite Nat2Z.id. rewrite !take_ge; [done|lia|lia]. }
  assert (Hl : length (take (Z.to_nat n) pending) = Z.to_nat n).
  { rewrite length_take. unfold n. lia. }
  rewrite Htake, last_lookup, Hl.
  assert (Hi : (pred (Z.to_nat n) < length (take (Z.to_nat n) pending))%nat)
    by lia.
  destruct (lookup_lt_is_Some_2 _ _ Hi) as [c Hc].
  exists c. split; [done|]. cbn. split; [done|].
  unfold index_buf, sizeof_buf.
  replace ((0 <=? n - 1) && (n - 1 <? 1024)) with true
    by (symmetry; apply andb_true_iff; lia).
  replace (Z.to_nat (n - 1)) with (pred (Z.to_nat n)) by lia.
  by rewrite lookup_app_l.
Qed.

End controller_loop.

(** C5. When the poll reports input and the read returns at least one
    byte, the iteration goes on and the dispatcher is run exactly once, on
    the last of the bytes copied into the buffer, the first 1024 pending at
    most; the controller after the iteration is determined by that byte
    alone, no other byte of the read is dispatched. *)
Theorem last_byte_dispatched (it : Iteration) (w : World) (pending : list Z) :
  canReceive it ≠ 0 → it_read it = ReadGives pending → pending ≠ [] →
  ∃ c w', last (take (Z.to_nat sizeof_buf) pending) = Some c ∧
          loop_body it w = Running w' ∧
          ctl w' = spinOnce (it_due it) (dispatch c (ctl w)) ∧
          take (Z.to_nat sizeof_buf) pending
            = take (length (take (Z.to_nat sizeof_buf) pending)) (buf w').
Proof.
  intros Hsel Hread Hne.
  destruct (read_last pending (buf w) Hne) as (c & Hlast & Hret & Hidx).
  exists c. unfold loop_body, poll_keyboard.
  apply Z.eqb_neq in Hsel. rewrite Hsel, Hread.
  destruct (read (ReadGives pending) sizeof_buf (buf w)) as [ret b] eqn:Hr.
  cbn in Hret, Hidx.
  replace (ret <? 0) with false by (symmetry; apply Z.ltb_ge; lia).
  rewrite Hidx. eexists. split; [done|]. split; [done|].
  split; [by destruct (it_sigint it)|].
  assert (Hb : b = take (Z.to_nat ret) pending ++ drop (Z.to_nat ret) (buf w)
               ∧ ret = Z.min (Z.of_nat (length pending)) sizeof_buf).
  { cbn in Hr. by injection Hr as <- <-. }
  destruct Hb as [-> Hmin].
  assert (Htake : take (Z.to_nat sizeof_buf) pending
                  = take (Z.to_nat ret) pending).
  { rewrite Hmin. destruct (Z.min_spec (Z.of_nat (length pending)) sizeof_buf)
      as [[Hlt ->]|[Hge ->]]; [|done].
    rewrite Nat2Z.id. rewrite !take_ge; [done|lia|lia]. }
  rewrite Htake.
  destruct (it_sigint it); cbn; by rewrite take_app_length.
Qed.

(** C5 for a burst "1", "g", "r": only "r" is dispatched. *)
Lemma last_byte_dispatched_witness :
  ∃ c w', last (take (Z.to_nat sizeof_buf) [char "1"; char "g"; char "r"])
            = Some c ∧
          loop_body (mkIteration 1 (ReadGives [char "1"; char "g"; char "r"])
                       [] false)
                    (mkWorld Controller_init (mkTermios 0 1 2) [] false)
            = Running w' ∧
          ctl w' = spinOnce [] (dispatch c Controller_init) ∧
          take (Z.to_nat sizeof_buf) [char "1"; char "g"; char "r"]
            = take (length (take (Z.to_nat sizeof_buf)
                              [char "1"; char "g"; char "r"])) (buf w').
Proof.
  apply (last_byte_dispatched
           (mkIteration 1 (ReadGives [char "1"; char "g"; char "r"]) [] false)
           (mkWorld Controller_init (mkTermios 0 1 2) [] false)
           [char "1"; char "g"; char "r"]).
  - vm_compute. discriminate.
  - reflexivity.
  - discriminate.
Defined.

Section exits.

Lemma run_enters_loop tty0 garbage t1 t2 t3 its :
  run tty0 garbage t1 t2 t3 its
    = loop tty0 its
        (mkWorld (controller_at_loop_entry t1 t2 t3) (make_raw tty0)
                 (garbage <$> seq 0 (Z.to_nat sizeof_buf)) false).
Proof. reflexivity. Qed.

Lemma read_nonneg pending b :
  0 ≤ (read (ReadGives pending) sizeof_buf b).1.
Proof. cbn. unfold sizeof_buf. lia. Qed.

Lemma poll_keyboard_read_fails it w :
  canReceive it ≠ 0 → it_read it = ReadFails →
  poll_keyboard it w = Exited EXIT_FAILURE w.
Proof.
  intros Hsel Hread. unfold poll_keyboard.
  apply Z.eqb_neq in Hsel. rewrite Hsel, Hread. cbn.
  by rewrite set_buf_same.
Qed.

Lemma poll_keyboard_Exited it w st w' :
  poll_keyboard it w = Exited st w' →
  st = EXIT_FAILURE ∧ canReceive it ≠ 0 ∧ it_read it = ReadFails ∧ w' = w.
Proof.
  unfold poll_keyboard.
  destruct (canReceive it =? 0) eqn:Hsel; [done|].
  apply Z.eqb_neq in Hsel.
  destruct (it_read it) as [|pending] eqn:Hread.
  - cbn. rewrite set_buf_same. by intros [= <- <-].
  - pose proof (read_nonneg pending (buf w)) as Hnn.
    destruct (read (ReadGives pending) sizeof_buf (buf w)) as [ret b].
    cbn in Hnn.
    replace (ret <? 0) with false by (symmetry; apply Z.ltb_ge; lia).
    by case_match.
Qed.

Lemma loop_body_Exited it w st w' :
  loop_body it w = Exited st w' →
  st = EXIT_FAILURE ∧ canReceive it ≠ 0 ∧ it_read it = ReadFails ∧ w' = w.
Proof.
  unfold loop_body.
  destruct (poll_keyboard it w) as [st1 w1|w1|w1] eqn:Hp; [|done|done].
  intros [= <- <-]. by apply poll_keyboard_Exited.
Qed.

Lemma loop_read_fails cooked it rest w :
  ros_ok w = true → canReceive it ≠ 0 → it_read it = ReadFails →
  loop cooked (it :: rest) w = Exited EXIT_FAILURE w.
Proof.
  intros Hok Hsel Hread. cbn. rewrite Hok. unfold loop_body.
  by rewrite poll_keyboard_read_fails.
Qed.

Lemma loop_Exited cooked its w st w' :
  loop cooked its w = Exited st w' →
  (st = EXIT_FAILURE ∧
   ∃ it, it ∈ its ∧ canReceive it ≠ 0 ∧ it_read it = ReadFails) ∨
  (st = EXIT_SUCCESS ∧ shutdown_flag w' = true ∧ tty w' = cooked).
Proof.
  revert w. induction its as [|it its IH]; intros w; cbn;
    unfold ros_ok; destruct (shutdown_flag w) eqn:Hflag; cbn.
  - intros [= <- <-]. right. by cbn.
  - done.
  - intros [= <- <-]. right. by cbn.
  - destruct (loop_body it w) as [st1 w1|w1|w1] eqn:Hb.
    + intros [= <- <-]. apply loop_body_Exited in Hb as (-> & Hsel & Hr & _).
      left. split; [done|]. exists it. split; [left|done].
    + done.
    + intros Hl. destruct (IH _ Hl) as [(-> & it' & Hin & H)|H]; [|by right].
      left. split; [done|]. exists it'. split; [by right|done].
Qed.

End exits.

(** C9. A failing read ends the process on the spot with the failure
    status, in the state the iteration started in: nothing is dispatched or
    published and the remaining iterations do not run. Conversely the loop
    ends with the failure status only through a failing read; its other
    exit is the shutdown flag, with the success status. *)
Theorem read_failure_is_fatal (cooked : termios) (w : World) :
  (∀ it rest, ros_ok w = true → canReceive it ≠ 0 → it_read it = ReadFails →
     loop cooked (it :: rest) w = Exited EXIT_FAILURE w) ∧
  (∀ its st w', loop cooked its w = Exited st w' →
     (st = EXIT_FAILURE ∧
      ∃ it, it ∈ its ∧ canReceive it ≠ 0 ∧ it_read it = ReadFails) ∨
     (st = EXIT_SUCCESS ∧ shutdown_flag w' = true ∧ tty w' = cooked)) ∧
  EXIT_FAILURE ≠ EXIT_SUCCESS.
Proof.
  split; [|split; [|done]].
  - intros it rest. apply loop_read_fails.
  - intros its. apply loop_Exited.
Qed.

(** C9 for a failing read in the first iteration, with a key and a firing
    waiting in the second. *)
Lemma read_failure_is_fatal_witness :
  let w := mkWorld (controller_at_loop_entry 1 2 3) (mkTermios 0 1 2) [] false in
  loop (mkTermios 10 0 4)
       [mkIteration 1 ReadFails [(0%nat, 4%R)] false;
        mkIteration 1 (ReadGives [KEYCODE_G]) [(0%nat, 5%R)] false] w
    = Exited EXIT_FAILURE w.
Proof.
  intros w.
  apply (proj1 (read_failure_is_fatal (mkTermios 10 0 4) w)).
  - reflexivity.
  - vm_compute. discriminate.
  - reflexivity.
Defined.

(** C6 on the code: with the read failing in the first iteration, [run]
    ends with the failure status and the terminal still in the mode
    [make_raw] gave it, which for the usual cooked settings (ICANON and
    ECHO on) is not the mode found at startup; whereas a run ended by the
    interrupt signal ends with the success status and the startup mode
    restored. *)
Theorem read_failure_leaves_terminal_raw (garbage : nat → Z) (t1 t2 t3 : R)
  (due : list (nat * R)) (sig : bool) (rest : list Iteration) :
  let tty0 := mkTermios 0x8a3b 0 4 in
  (∃ w, run tty0 garbage t1 t2 t3 (mkIteration 1 ReadFails due sig :: rest)
          = Exited EXIT_FAILURE w ∧
        tty w = make_raw tty0 ∧ tty w ≠ tty0) ∧
  (∃ w, run tty0 garbage t1 t2 t3 (mkIteration 0 ReadFails due true :: rest)
          = Exited EXIT_SUCCESS w ∧
        tty w = tty0).
Proof.
  intros tty0. split.
  - eexists. split; [|split].
    + rewrite run_enters_loop. by apply loop_read_fails.
    + done.
    + cbn. unfold make_raw, tty0. intros H. vm_compute in H. discriminate H.
  - eexists. split.
    + rewrite run_enters_loop. cbn. by destruct rest.
    + done.
Qed.

(** C10 on the code: when the poll reports the descriptor readable and the
    read returns 0 bytes (end of input), the test [ret < 0] passes and the
    buffer is indexed at [ret - 1 = -1], outside the array. *)
Theorem empty_read_indexes_before_buffer (tty0 : termios) (garbage : nat → Z)
  (t1 t2 t3 : R) (due : list (nat * R)) (sig : bool) (rest : list Iteration) :
  let it := mkIteration 1 (ReadGives []) due sig in
  (∀ b, let r := read (it_read it) sizeof_buf b in
        r.1 = 0 ∧ (r.1 <? 0) = false ∧ ¬ (1 ≤ r.1 ≤ sizeof_buf) ∧
        index_buf r.2 (r.1 - 1) = None) ∧
  ∃ w, run tty0 garbage t1 t2 t3 (it :: rest) = Undefined w.
Proof.
  intros it. split.
  - intros b. cbn. unfold sizeof_buf. repeat split; lia.
  - eexists. rewrite run_enters_loop. reflexivity.
Qed.

(** C8. Key "2" publishes exactly one pose, for "table" at (0.5, 0.0, 0)
    with the rotation not set, publishes no message and leaves the timer
    registry as it was; and in no run is "table" given a slot in the
    registry or a timer in the manager. *)
Theorem key_2_moves_table_only (ctl0 : Controller) (tty0 : termios)
  (garbage : nat → Z) (t1 t2 t3 : R) (its : list Iteration) :
  let ctl' := dispatch (char "2") ctl0 in
  new_transforms ctl0 ctl'
    = [mkTransformStamped "map" "table" (mkVector3 0.5 0.0 0) Quaternion_unset] ∧
  new_msgs ctl0 ctl' = [] ∧
  publish_count ctl' = S (publish_count ctl0) ∧
  pub_timer_map_ ctl' = pub_timer_map_ ctl0 ∧
  timer_manager ctl' = timer_manager ctl0 ∧
  let w := world_of (run tty0 garbage t1 t2 t3 its) in
  pub_timer_map_ (ctl w) !! "table" = None ∧
  active_schedules "table" (ctl w) = 0%nat ∧
  dom (pub_timer_map_ (ctl w)) = {["bear_doll"; "dog_doll"; "rabbit_doll"]}.
Proof.
  intros ctl'. split; [|split; [|split; [|split; [|split]]]].
  - apply (new_transforms_publish (table_pose 0.5 0.0)).
  - apply (new_msgs_publish_transform (table_pose 0.5 0.0)).
  - subst ctl'.
    change (dispatch (char "2") ctl0)
      with (publish_transform (table_pose 0.5 0.0) ctl0).
    unfold publish_count; cbn. rewrite length_app; cbn. lia.
  - done.
  - done.
  - intros w. unfold w. rewrite run_enters_loop.
    destruct (loop_registry tty0 its
                (mkWorld (controller_at_loop_entry t1 t2 t3) (make_raw tty0)
                   (garbage <$> seq 0 (Z.to_nat sizeof_buf)) false))
      as (Hm & Ht & _).
    unfold active_schedules. rewrite Hm, Ht. cbn [ctl].
    split; [reflexivity|]. split; [reflexivity|].
    unfold controller_at_loop_entry, createTimer, Controller_init;
      cbn [pub_timer_map_].
    rewrite !dom_insert_L, dom_empty_L. set_solver.
Qed.

(** * Further properties of the terminal handling and the loop *)

Section terminal.

Lemma testbit_icanon_echo (n : Z) :
  Z.testbit (Z.lor ICANON ECHO) n = (n =? 1) || (n =? 3).
Proof.
  change (Z.lor ICANON ECHO) with 10.
  destruct (Z_lt_le_dec n 0) as [Hneg|Hnn].
  - rewrite Z.testbit_neg_r by done.
    symmetry. apply orb_false_iff. split; apply Z.eqb_neq; lia.
  - destruct (Z_lt_le_dec n 4) as [Hlt|Hge].
    + assert (n = 0 ∨ n = 1 ∨ n = 2 ∨ n = 3) as [->|[->|[->| ->]]] by lia;
        reflexivity.
    + rewrite Z.bits_above_log2; [|lia|cbn; lia].
      symmetry. apply orb_false_iff. split; apply Z.eqb_neq; lia.
Qed.

Lemma testbit_make_raw (t : termios) (n : Z) :
  Z.testbit (c_lflag (make_raw t)) n
    = if (n =? 1) || (n =? 3) then false else Z.testbit (c_lflag t) n.
Proof.
  cbn [make_raw c_lflag].
  destruct (Z_lt_le_dec n 0) as [Hneg|Hnn].
  - rewrite !Z.testbit_neg_r by done. by case_match.
  - rewrite Z.land_spec, Z.lnot_spec, testbit_icanon_echo by done.
    destruct ((n =? 1) || (n =? 3)); cbn.
    + apply andb_false_r.
    + apply andb_true_r.
Qed.

Lemma make_raw_le (x : Z) :
  0 ≤ x → 0 ≤ Z.land x (Z.lnot (Z.lor ICANON ECHO)) ≤ x.
Proof.
  intros Hx. split; [apply Z.land_nonneg; by left|].
  rewrite <- Z.ldiff_land.
  set (k := Z.lor ICANON ECHO).
  assert (H1 : Z.ldiff (Z.land x k) x = 0).
  { apply Z.bits_inj'. intros n Hn.
    rewrite Z.ldiff_spec, Z.land_spec, Z.bits_0.
    by destruct (Z.testbit x n), (Z.testbit k n). }
  assert (H2 : Z.ldiff x (Z.land x k) = Z.ldiff x k).
  { apply Z.bits_inj'. intros n Hn.
    rewrite !Z.ldiff_spec, Z.land_spec.
    by destruct (Z.testbit x n), (Z.testbit k n). }
  apply Z.sub_nocarry_ldiff in H1. rewrite H2 in H1. rewrite <- H1.
  assert (0 ≤ Z.land x k) by (apply Z.land_nonneg; by left). lia.
Qed.

Lemma poll_keyboard_tty it w :
  tty (world_of (poll_keyboard it w)) = tty w ∧
  shutdown_flag (world_of (poll_keyboard it w)) = shutdown_flag w.
Proof.
  unfold poll_keyboard. case_match; [done|].
  destruct (read (it_read it) sizeof_buf (buf w)) as [ret b].
  case_match; [done|]. by case_match.
Qed.

Lemma loop_body_tty it w :
  tty (world_of (loop_body it w)) = tty w.
Proof.
  destruct (poll_keyboard_tty it w) as [Hp _]. unfold loop_body.
  destruct (poll_keyboard it w) as [st w1|w1|w1]; cbn in *; [done|done|].
  by destruct (it_sigint it).
Qed.

Lemma loop_tty cooked its w :
  tty (world_of (loop cooked its w))
    = match loop cooked its w with
      | Exited st _ => if st =? EXIT_SUCCESS then cooked else tty w
      | _ => tty w
      end.
Proof.
  revert w. induction its as [|it its IH]; intros w; cbn.
  - by destruct (ros_ok w).
  - destruct (ros_ok w); [|done].
    pose proof (loop_body_tty it w) as Hb.
    destruct (loop_body it w) as [st w1|w1|w1] eqn:Hl; cbn in Hb.
    + apply loop_body_Exited in Hl as (-> & _). by cbn.
    + by cbn.
    + rewrite IH, Hb. done.
Qed.

End terminal.

(** X1. Raw mode switches off exactly the ICANON and ECHO bits of the
    local flags and keeps every other bit; it sets the VEOL and VEOF
    control characters to 1 and 2; applying it twice is applying it once;
    and a non-negative flag word stays between 0 and its old value. *)
Theorem make_raw_clears_icanon_echo_only (t : termios) :
  (∀ n, Z.testbit (c_lflag (make_raw t)) n
        = if (n =? 1) || (n =? 3) then false else Z.testbit (c_lflag t) n) ∧
  Z.land (c_lflag (make_raw t)) ICANON = 0 ∧
  Z.land (c_lflag (make_raw t)) ECHO = 0 ∧
  c_cc_VEOL (make_raw t) = 1 ∧ c_cc_VEOF (make_raw t) = 2 ∧
  make_raw (make_raw t) = make_raw t ∧
  (0 ≤ c_lflag t → 0 ≤ c_lflag (make_raw t) ≤ c_lflag t).
Proof.
  split; [apply testbit_make_raw|].
  assert (Hbit : ∀ k, k = 1 ∨ k = 3 →
            Z.land (c_lflag (make_raw t)) (2 ^ k) = 0).
  { intros k Hk. apply Z.bits_inj'. intros n Hn.
    rewrite Z.land_spec, testbit_make_raw, Z.bits_0.
    destruct (decide (n = k)) as [->|Hne].
    - by destruct Hk as [-> | ->].
    - rewrite (Z.pow2_bits_false k n) by done. apply andb_false_r. }
  split; [apply (Hbit 1); by left|].
  split; [apply (Hbit 3); by right|].
  split; [done|]. split; [done|]. split.
  - unfold make_raw at 1 3. cbn [c_lflag]. f_equal.
    apply Z.bits_inj'. intros n Hn.
    rewrite Z.land_spec, Z.lnot_spec, testbit_icanon_echo by done.
    change (Z.land (c_lflag t) (Z.lnot (Z.lor ICANON ECHO)))
      with (c_lflag (make_raw t)).
    rewrite testbit_make_raw.
    destruct ((n =? 1) || (n =? 3)); cbn; [done|apply andb_true_r].
  - apply make_raw_le.
Qed.

(** X1 for the usual cooked flag word 0x8a3b. *)
Lemma make_raw_clears_icanon_echo_only_witness :
  0 ≤ c_lflag (mkTermios 0x8a3b 0 4) ∧
  0 ≤ c_lflag (make_raw (mkTermios 0x8a3b 0 4)) ≤ c_lflag (mkTermios 0x8a3b 0 4).
Proof.
  assert (H : 0 ≤ c_lflag (mkTermios 0x8a3b 0 4)) by (cbn; lia).
  split; [exact H|].
  exact (proj2 (proj2 (proj2 (proj2 (proj2 (proj2
    (make_raw_clears_icanon_echo_only (mkTermios 0x8a3b 0 4))))))) H).
Defined.

(** X2. The terminal along a run: [run] puts it in raw mode before the
    loop, no iteration changes it, and it is set back to the attributes
    found at startup exactly when [run] returns [EXIT_SUCCESS]; in every
    other outcome it is still raw. *)
Theorem run_terminal_mode (tty0 : termios) (garbage : nat → Z) (t1 t2 t3 : R)
  (its : list Iteration) :
  tty (world_of (run tty0 garbage t1 t2 t3 its))
    = match run tty0 garbage t1 t2 t3 its with
      | Exited st _ => if st =? EXIT_SUCCESS then tty0 else make_raw tty0
      | _ => make_raw tty0
      end.
Proof. rewrite run_enters_loop. apply loop_tty. Qed.

Section keyboard.

Lemma loop_shutdown cooked its w :
  ros_ok w = false → loop cooked its w = Exited EXIT_SUCCESS (set_tty cooked w).
Proof. intros Hok. destruct its; cbn; by rewrite Hok. Qed.

Lemma loop_Running_ok cooked its w w' :
  loop cooked its w = Running w' → ros_ok w' = true.
Proof.
  revert w. induction its as [|it its IH]; intros w; cbn.
  - destruct (ros_ok w) eqn:Hok; [|done]. by intros [= <-].
  - destruct (ros_ok w); [|done].
    destruct (loop_body it w) as [st w1|w1|w1]; [done|done|]. apply IH.
Qed.

Lemma read_length (r : ReadResult) (b : list Z) :
  length b = Z.to_nat sizeof_buf →
  length (read r sizeof_buf b).2 = length b.
Proof.
  intros Hb. destruct r as [|pending]; cbn; [done|].
  rewrite length_app, length_take, length_drop.
  unfold sizeof_buf in *. lia.
Qed.

Lemma poll_keyboard_buf it w :
  length (buf w) = Z.to_nat sizeof_buf →
  length (buf (world_of (poll_keyboard it w))) = length (buf w).
Proof.
  intros Hb. pose proof (read_length (it_read it) (buf w) Hb) as Hr.
  unfold poll_keyboard. case_match; [done|].
  destruct (read (it_read it) sizeof_buf (buf w)) as [ret b].
  case_match; [done|]. by case_match.
Qed.

Lemma loop_body_buf it w :
  length (buf w) = Z.to_nat sizeof_buf →
  length (buf (world_of (loop_body it w))) = length (buf w).
Proof.
  intros Hb. pose proof (poll_keyboard_buf it w Hb) as Hp. unfold loop_body.
  destruct (poll_keyboard it w) as [st w1|w1|w1]; cbn in *; [done|done|].
  by destruct (it_sigint it).
Qed.

Lemma loop_buf cooked its w :
  length (buf w) = Z.to_nat sizeof_buf →
  length (buf (world_of (loop cooked its w))) = length (buf w).
Proof.
  revert w. induction its as [|it its IH]; intros w Hb; cbn.
  - by destruct (ros_ok w).
  - destruct (ros_ok w); [|done].
    pose proof (loop_body_buf it w Hb) as Hbody.
    destruct (loop_body it w) as [st w1|w1|w1]; cbn in *; [done|done|].
    rewrite IH; [done|congruence].
Qed.

End keyboard.


(** X4. The interrupt signal ends the run after the iteration it arrives
    in: that iteration's key and timer firings take effect, no later
    iteration runs, and the run returns [EXIT_SUCCESS] with the terminal
    restored. *)
Theorem interrupt_ends_run_after_iteration (cooked : termios)
  (its1 its2 : list Iteration) (it : Iteration) (w w1 w2 : World) :
  loop cooked its1 w = Running w1 →
  poll_keyboard it w1 = Running w2 →
  it_sigint it = true →
  loop cooked (its1 ++ it :: its2) w
    = Exited EXIT_SUCCESS
        (mkWorld (spinOnce (it_due it) (ctl w2)) cooked (buf w2) true).
Proof.
  intros H1 Hp Hsig.
  assert (Happ : loop cooked (its1 ++ it :: its2) w
                 = loop cooked (it :: its2) w1).
  { revert w H1. induction its1 as [|i its1 IH]; intros w H1; cbn in *.
    - destruct (ros_ok w) eqn:Hok; [|done]. injection H1 as <-. by rewrite Hok.
    - destruct (ros_ok w); [|done].
      destruct (loop_body i w) as [st w'|w'|w']; [done|done|]. by apply IH. }
  rewrite Happ. cbn. rewrite (loop_Running_ok _ _ _ _ H1).
  unfold loop_body. rewrite Hp, Hsig. by apply loop_shutdown.
Qed.

(** X4 for "g" typed in the iteration the signal arrives in. *)
Lemma interrupt_ends_run_after_iteration_witness :
  let w := mkWorld Controller_init (mkTermios 0 1 2) [] false in
  let it := mkIteration 1 (ReadGives [KEYCODE_G]) [] true in
  loop (mkTermios 10 0 4) ([] ++ it :: [mkIteration 1 ReadFails [] false]) w
    = Exited EXIT_SUCCESS
        (mkWorld (spinOnce [] (sendGraspedMessage "bear_doll" Controller_init))
                 (mkTermios 10 0 4) [KEYCODE_G] true).
Proof.
  intros w it.
  exact (interrupt_ends_run_after_iteration (mkTermios 10 0 4) []
           [mkIteration 1 ReadFails [] false] it w w
           (mkWorld (sendGraspedMessage "bear_doll" Controller_init)
                    (mkTermios 0 1 2) [KEYCODE_G] false)
           eq_refl eq_refl eq_refl).
Defined.

(** X5. What the keyboard part of an iteration can do. It ends the process
    only with the failure status and only on a failing read; it makes the
    out-of-bounds access only on a read of no bytes; otherwise either
    nothing was polled and nothing changes, or the last byte copied is
    dispatched. In the first two cases the state is left as it was. *)
Theorem poll_keyboard_outcomes (it : Iteration) (w : World) :
  match poll_keyboard it w with
  | Exited st w' =>
      st = EXIT_FAILURE ∧ canReceive it ≠ 0 ∧ it_read it = ReadFails ∧ w' = w
  | Undefined w' =>
      canReceive it ≠ 0 ∧ it_read it = ReadGives [] ∧ w' = w
  | Running w' =>
      (canReceive it = 0 ∧ w' = w) ∨
      (∃ pending c, canReceive it ≠ 0 ∧ it_read it = ReadGives pending ∧
         last (take (Z.to_nat sizeof_buf) pending) = Some c ∧
         ctl w' = dispatch c (ctl w) ∧ tty w' = tty w ∧
         shutdown_flag w' = shutdown_flag w)
  end.
Proof.
  destruct (poll_keyboard it w) as [st w'|w'|w'] eqn:Hp.
  - by apply poll_keyboard_Exited.
  - revert Hp. unfold poll_keyboard.
    destruct (canReceive it =? 0) eqn:Hsel; [done|].
    apply Z.eqb_neq in Hsel.
    destruct (it_read it) as [|pending] eqn:Hread; [done|].
    destruct pending as [|x pending].
    + change (read (ReadGives []) sizeof_buf (buf w)) with (0, buf w).
      change (index_buf (buf w) (0 - 1)) with (@None Z).
      change (0 <? 0) with false. cbv beta iota.
      rewrite set_buf_same. by intros [= <-].
    + destruct (read_last (x :: pending) (buf w)) as (c & _ & _ & Hidx);
        [done|].
      destruct (read (ReadGives (x :: pending)) sizeof_buf (buf w))
        as [ret b]. cbn in Hidx. rewrite Hidx. by case_match.
  - revert Hp. unfold poll_keyboard.
    destruct (canReceive it =? 0) eqn:Hsel.
    + apply Z.eqb_eq in Hsel. intros [= <-]. by left.
    + apply Z.eqb_neq in Hsel.
      destruct (it_read it) as [|pending] eqn:Hread; [done|].
      destruct pending as [|x pending]; [done|].
      destruct (read_last (x :: pending) (buf w)) as (c & Hlast & Hret & Hidx);
        [done|].
      destruct (read (ReadGives (x :: pending)) sizeof_buf (buf w))
        as [ret b]. cbn in Hidx, Hret. rewrite Hidx.
      replace (ret <? 0) with false by (symmetry; apply Z.ltb_ge; lia).
      intros [= <-]. right. by exists (x :: pending), c.
Qed.



(** In every run the array [buf] keeps its 1024 bytes, so every index
    from 0 to 1023 reads a byte and every other index is out of bounds. *)
Lemma run_buffer_size (tty0 : termios) (garbage : nat → Z) (t1 t2 t3 : R)
  (its : list Iteration) (i : Z) :
  let b := buf (world_of (run tty0 garbage t1 t2 t3 its)) in
  length b = 1024%nat ∧
  (is_Some (index_buf b i) ↔ 0 ≤ i < sizeof_buf).
Proof.
  intros b.
  assert (Hlen : length b = 1024%nat).
  { unfold b. rewrite run_enters_loop, loop_buf; cbn [buf].
    - by rewrite length_fmap, length_seq.
    - by rewrite length_fmap, length_seq. }
  split; [done|]. unfold index_buf, sizeof_buf.
  destruct ((0 <=? i) && (i <? 1024)) eqn:Hi.
  - apply andb_true_iff in Hi as [H0 H1].
    apply Z.leb_le in H0. apply Z.ltb_lt in H1.
    split; [done|]. intros _. apply lookup_lt_is_Some. lia.
  - split; [by intros [? ?]|]. intros [H0 H1].
    apply Z.leb_le in H0. apply Z.ltb_lt in H1. by rewrite H0, H1 in Hi.
Qed.

(** * Further properties of what is published *)

Section publishing.

Lemma dispatch_unrecognized k c : k ∉ recognized_keys → dispatch k c = c.
Proof.
  intros Hk. unfold dispatch.
  repeat (case_match;
          [exfalso; apply Hk; unfold recognized_keys;
           match goal with H : (_ =? _) = true |- _ =>
             apply Z.eqb_eq in H; subst k end;
           repeat (first [by left | right])|]).
  done.
Qed.

Lemma tracked_bear : "bear_doll" ∈ tracked_names.
Proof. by left. Qed.
Lemma tracked_dog : "dog_doll" ∈ tracked_names.
Proof. right. by left. Qed.
Lemma tracked_rabbit : "rabbit_doll" ∈ tracked_names.
Proof. right. right. by left. Qed.

(** The three things a key can do. *)
Lemma dispatch_cases k c :
  ((k ∉ recognized_keys) ∧ dispatch k c = c) ∨
  (k ∈ recognized_keys ∧
   ((∃ m, known_message m ∧ dispatch k c = publish_msg m c) ∨
    (∃ x y, mkVector3 x y 0 ∈ table_positions ∧
            dispatch k c = publish_transform (table_pose x y) c))).
Proof.
  destruct (decide (k ∈ recognized_keys)) as [Hk|Hk];
    [right; split; [done|] | left; split; [done|by apply dispatch_unrecognized]].
  unfold recognized_keys in Hk.
  repeat (apply elem_of_cons in Hk as [->|Hk]).
  - right. exists 0.0%R, 0.0%R. split; [by left|done].
  - right. exists 0.5%R, 0.0%R. split; [right; by left|done].
  - right. exists 0.0%R, 0.5%R. split; [right; right; by left|done].
  - left. eexists. split; [|reflexivity]. right. eexists.
    split; [apply tracked_bear|done].
  - left. eexists. split; [|reflexivity]. right. eexists.
    split; [apply tracked_dog|done].
  - left. eexists. split; [|reflexivity]. right. eexists.
    split; [apply tracked_rabbit|done].
  - left. eexists. split; [|reflexivity]. by left.
  - by apply elem_of_nil in Hk.
Qed.

(** The two things a firing can do. *)
Lemma fire_cases h now c :
  (find_timer h (timer_manager c) = None ∧ fire h now c = c) ∨
  (∃ cb, (h, cb) ∈ timer_manager c ∧
         fire h now c = publish_transform (timer_output now (h, cb)) c).
Proof.
  unfold fire. destruct (find_timer h (timer_manager c)) as [cb|] eqn:Hf.
  - right. exists cb. split; [by apply find_timer_Some|done].
  - by left.
Qed.

Lemma fire_count h now c :
  pub_msg_ (fire h now c) = pub_msg_ c ∧
  (length (pub_transform_ c) ≤ length (pub_transform_ (fire h now c))
     ≤ S (length (pub_transform_ c)))%nat.
Proof.
  destruct (fire_cases h now c) as [[_ ->]|(cb & _ & ->)]; cbn.
  - split; [done|lia].
  - rewrite length_app; cbn. split; [done|lia].
Qed.

Lemma spinOnce_count due c :
  pub_msg_ (spinOnce due c) = pub_msg_ c ∧
  (length (pub_transform_ c) ≤ length (pub_transform_ (spinOnce due c))
     ≤ length (pub_transform_ c) + length due)%nat.
Proof.
  revert c. induction due as [|d due IH]; intros c.
  - cbn. split; [done|lia].
  - change (spinOnce (d :: due) c) with (spinOnce due (fire d.1 d.2 c)).
    destruct (IH (fire d.1 d.2 c)) as [-> Hl].
    destruct (fire_count d.1 d.2 c) as [-> Hf]. cbn [length].
    split; [done|lia].
Qed.

Lemma dispatch_count k c :
  (length (pub_msg_ c) ≤ length (pub_msg_ (dispatch k c)))%nat ∧
  (length (pub_transform_ c) ≤ length (pub_transform_ (dispatch k c)))%nat ∧
  (publish_count (dispatch k c) ≤ S (publish_count c))%nat.
Proof.
  unfold publish_count.
  destruct (dispatch_cases k c)
    as [[_ ->]|[_ [(m & _ & ->)|(x & y & _ & ->)]]]; cbn;
    rewrite ?length_app; cbn; lia.
Qed.

Lemma known_table_pose x y :
  mkVector3 x y 0 ∈ table_positions → known_pose (table_pose x y).
Proof. intros Hin. split; [done|]. split; [done|]. left. by split. Qed.

Lemma known_timer_output now h cb :
  cb_name cb ∈ tracked_names → known_pose (timer_output now (h, cb)).
Proof.
  intros Hin. split; [done|]. split; [done|]. right. cbn.
  split; [done|]. split; [|done]. rewrite Rplus_comm. apply sin2_cos2.
Qed.

Lemma dispatch_known k c : publishes_known c → publishes_known (dispatch k c).
Proof.
  intros (Ht & Hm & Htm).
  destruct (dispatch_cases k c)
    as [[_ ->]|[_ [(m & Hk & ->)|(x & y & Hk & ->)]]]; [done| |].
  - split; [done|]. split; [|done]. cbn. apply Forall_app. split; [done|].
    by apply Forall_singleton.
  - split; [|done]. cbn. apply Forall_app. split; [done|].
    by apply Forall_singleton, known_table_pose.
Qed.

Lemma fire_known h now c : publishes_known c → publishes_known (fire h now c).
Proof.
  intros (Ht & Hm & Htm).
  destruct (fire_cases h now c) as [[_ ->]|(cb & Hin & ->)]; [done|].
  split; [|done]. cbn. apply Forall_app. split; [done|].
  apply Forall_singleton, known_timer_output. by apply (Htm h).
Qed.

Lemma spinOnce_known due c :
  publishes_known c → publishes_known (spinOnce due c).
Proof.
  revert c. induction due as [|d due IH]; intros c Hc; [done|].
  change (spinOnce (d :: due) c) with (spinOnce due (fire d.1 d.2 c)).
  by apply IH, fire_known.
Qed.

Lemma poll_keyboard_known it w :
  publishes_known (ctl w) →
  publishes_known (ctl (world_of (poll_keyboard it w))).
Proof.
  intros Hc. unfold poll_keyboard. case_match; [done|].
  destruct (read (it_read it) sizeof_buf (buf w)) as [ret b].
  case_match; [done|]. case_match; [|done].
  cbn. by apply dispatch_known.
Qed.

Lemma loop_body_known it w :
  publishes_known (ctl w) → publishes_known (ctl (world_of (loop_body it w))).
Proof.
  intros Hc. pose proof (poll_keyboard_known it w Hc) as Hp. unfold loop_body.
  destruct (poll_keyboard it w) as [st w1|w1|w1]; cbn in *; [done|done|].
  destruct (it_sigint it); cbn; by apply spinOnce_known.
Qed.

Lemma loop_known cooked its w :
  publishes_known (ctl w) →
  publishes_known (ctl (world_of (loop cooked its w))).
Proof.
  revert w. induction its as [|it its IH]; intros w Hc; cbn.
  - by destruct (ros_ok w).
  - destruct (ros_ok w); [|done].
    pose proof (loop_body_known it w Hc) as Hb.
    destruct (loop_body it w) as [st w1|w1|w1]; cbn in *; [done|done|].
    by apply IH.
Qed.

Lemma timers_at_loop_entry t1 t2 t3 :
  timer_manager (controller_at_loop_entry t1 t2 t3)
    = [(0%nat, mkTimerCallback "bear_doll" t1 0.5);
       (1%nat, mkTimerCallback "dog_doll" t2 0.6);
       (2%nat, mkTimerCallback "rabbit_doll" t3 0.7)].
Proof. reflexivity. Qed.

Lemma known_at_loop_entry t1 t2 t3 :
  publishes_known (controller_at_loop_entry t1 t2 t3).
Proof.
  split; [by constructor|]. split; [by constructor|].
  intros h cb. rewrite timers_at_loop_entry. intros Hin.
  repeat (apply elem_of_cons in Hin as [[= -> ->]|Hin]).
  - apply tracked_bear.
  - apply tracked_dog.
  - apply tracked_rabbit.
  - by apply elem_of_nil in Hin.
Qed.

Lemma poll_keyboard_ctl it w :
  match poll_keyboard it w with
  | Exited _ w1 => w1 = w
  | Undefined w1 => ctl w1 = ctl w
  | Running w1 => ctl w1 = ctl w ∨ ∃ k, ctl w1 = dispatch k (ctl w)
  end.
Proof.
  destruct (poll_keyboard it w) as [st w1|w1|w1] eqn:Hp.
  - by apply poll_keyboard_Exited in Hp as (_ & _ & _ & ->).
  - revert Hp. unfold poll_keyboard. case_match; [done|].
    destruct (read (it_read it) sizeof_buf (buf w)) as [ret b].
    case_match; [done|]. case_match; [done|]. by intros [= <-].
  - revert Hp. unfold poll_keyboard. case_match; [intros [= <-]; by left|].
    destruct (read (it_read it) sizeof_buf (buf w)) as [ret b].
    case_match; [done|]. case_match; [|done]. intros [= <-].
    right. by eexists.
Qed.

End publishing.

(** X7. One iteration makes at most one publish for the keyboard, or
    none, and at most one per due timer: the publish count never goes
    down and grows by no more than one plus the number of due timers,
    and at most one message is sent. *)
Theorem loop_body_publish_bound (it : Iteration) (w : World) :
  let c := ctl w in
  let c' := ctl (world_of (loop_body it w)) in
  (publish_count c ≤ publish_count c'
     ≤ publish_count c + 1 + length (it_due it))%nat ∧
  (length (pub_msg_ c) ≤ length (pub_msg_ c') ≤ S (length (pub_msg_ c)))%nat.
Proof.
  intros c c'. subst c c'. unfold loop_body.
  pose proof (poll_keyboard_ctl it w) as Hp.
  destruct (poll_keyboard it w) as [st w1|w1|w1]; cbn [world_of].
  - subst w1. lia.
  - rewrite Hp. lia.
  - assert (Hw : ctl (if it_sigint it
                      then rosSigintHandler
                             (set_ctl (spinOnce (it_due it) (ctl w1)) w1)
                      else set_ctl (spinOnce (it_due it) (ctl w1)) w1)
                 = spinOnce (it_due it) (ctl w1))
      by by destruct (it_sigint it).
    rewrite Hw. destruct (spinOnce_count (it_due it) (ctl w1)) as [Hm Hl].
    unfold publish_count. rewrite Hm.
    destruct Hp as [Hp|[k Hp]]; rewrite Hp in *; [lia|].
    destruct (dispatch_count k (ctl w)) as (H1 & H2 & H3).
    unfold publish_count in H3. lia.
Qed.

(** X8. Everything a run ever publishes is of a known kind. A pose is in
    frame "map" with the rotation not set, and is either the table at one
    of its three places or one of the three dolls on the unit circle in
    the plane [z = 0]; a message is "released" or "grasped," followed by
    the name of one of the three dolls. *)
Theorem run_publishes_known (tty0 : termios) (garbage : nat → Z)
  (t1 t2 t3 : R) (its : list Iteration) :
  let c := ctl (world_of (run tty0 garbage t1 t2 t3 its)) in
  Forall known_pose (pub_transform_ c) ∧ Forall known_message (pub_msg_ c).
Proof.
  intros c. subst c. rewrite run_enters_loop.
  destruct (loop_known tty0 its
              (mkWorld (controller_at_loop_entry t1 t2 t3) (make_raw tty0)
                 (garbage <$> seq 0 (Z.to_nat sizeof_buf)) false))
    as (Ht & Hm & _); [apply known_at_loop_entry|done].
Qed.

Section manager.

Lemma slot_pairs_nodup (tm : list (nat * TimerCallback)) :
  NoDup tm.*1 → NoDup ((λ e, (cb_name e.2, e.1)) <$> tm).
Proof.
  intros Hnd. apply (NoDup_fmap_1 snd).
  rewrite <- list_fmap_compose.
  by replace (snd ∘ (λ e : nat * TimerCallback, (cb_name e.2, e.1)))
    with (@fst nat TimerCallback) by done.
Qed.

Lemma manager_size c :
  registry_ok c → length (timer_manager c) = size (pub_timer_map_ c).
Proof.
  intros [Hnd Htm Hsl].
  rewrite <- length_map_to_list.
  rewrite <- (length_fmap (λ e, (cb_name e.2, e.1)) (timer_manager c)).
  apply Permutation_length, NoDup_Permutation.
  - by apply slot_pairs_nodup.
  - apply NoDup_map_to_list.
  - intros [name h]. rewrite elem_of_map_to_list, list_elem_of_fmap. split.
    + intros ([h' cb] & [= -> ->] & Hin). by apply Htm in Hin as [_ ?].
    + intros Hl. destruct (Hsl _ _ Hl) as (cb & Hin & <-).
      by exists (h, cb).
Qed.

Lemma find_timer_None_iff h c :
  registry_ok c →
  find_timer h (timer_manager c) = None
  ↔ ∀ name, pub_timer_map_ c !! name ≠ Some h.
Proof.
  intros Hok. split.
  - intros Hf name Hl. destruct (ok_slot _ Hok _ _ Hl) as (cb & Hin & _).
    rewrite (find_timer_elem h cb) in Hf; [done|apply Hok|done].
  - intros Hn. destruct (find_timer h (timer_manager c)) as [cb|] eqn:Hf;
      [|done].
    apply find_timer_Some in Hf. apply (ok_timer _ Hok) in Hf as [_ Hl].
    by destruct (Hn _ Hl).
Qed.

Lemma filter_filter_implied {A} (P Q : A → Prop)
  `{∀ x, Decision (P x)} `{∀ x, Decision (Q x)} (l : list A) :
  (∀ x, x ∈ l → P x → Q x) → filter P (filter Q l) = filter P l.
Proof.
  induction l as [|x l IH]; intros Himp; [done|].
  assert (IH' : filter P (filter Q l) = filter P l).
  { apply IH. intros y Hy. apply Himp. by right. }
  destruct (decide (Q x)) as [Hq|Hq], (decide (P x)) as [Hp|Hp].
  - rewrite (filter_cons_True Q x l Hq), !(filter_cons_True P) by done.
    by rewrite IH'.
  - rewrite (filter_cons_True Q x l Hq), !(filter_cons_False P) by done.
    done.
  - destruct Hq. apply Himp; [left|done].
  - rewrite (filter_cons_False Q x l Hq), (filter_cons_False P) by done.
    done.
Qed.

Lemma createTimer_other_schedules name n speed now c :
  registry_ok c → n ≠ name →
  filter (λ e, cb_name e.2 = name) (timer_manager (createTimer n speed now c))
    = filter (λ e, cb_name e.2 = name) (timer_manager c).
Proof.
  intros Hok Hn.
  assert (Happ : filter (λ e, cb_name e.2 = name)
                   (timer_manager c ++ [(next_handle c, mkTimerCallback n now speed)])
                 = filter (λ e, cb_name e.2 = name) (timer_manager c)).
  { rewrite filter_app, filter_cons_False, filter_nil, app_nil_r; [done|].
    cbn. done. }
  unfold createTimer; cbn [timer_manager].
  destruct (pub_timer_map_ c !! n) as [old|] eqn:Hold; [|done].
  unfold release_timer. rewrite filter_filter_implied; [done|].
  intros [h cb] Hin Hcb Heq. cbn in *. subst h.
  apply elem_of_app in Hin as [Hin|Hin].
  - destruct (ok_slot _ Hok _ _ Hold) as (cb' & Hin' & Hcb').
    apply Hn. rewrite <- Hcb, <- Hcb'. f_equal.
    by apply (NoDup_fst_functional (timer_manager c) old); [apply Hok| |].
  - apply list_elem_of_singleton in Hin. injection Hin as _ ->.
    cbn in Hcb. by destruct Hn.
Qed.

End manager.

(** X9. No timer is orphaned and no slot dangles: in every state the
    controller can reach, the manager holds as many timers as the map has
    names; a handle fires nothing exactly when no name's slot holds it;
    the handle in a name's slot has been issued and its firing publishes
    one pose, for that name. *)
Theorem registry_matches_manager (ops : list Op) :
  let c := exec ops Controller_init in
  length (timer_manager c) = size (pub_timer_map_ c) ∧
  (∀ h now, fire h now c = c ↔ ∀ name, pub_timer_map_ c !! name ≠ Some h) ∧
  (∀ name h now, pub_timer_map_ c !! name = Some h →
     (h < next_handle c)%nat ∧
     ∃ ts, new_transforms c (fire h now c) = [ts] ∧ child_frame_id ts = name).
Proof.
  intros c.
  assert (Hok : registry_ok c) by apply exec_ok, registry_ok_init.
  split; [by apply manager_size|]. split.
  - intros h now. rewrite <- (find_timer_None_iff h c Hok).
    destruct (fire_cases h now c) as [[Hf ->]|(cb & Hin & Hfire)]; [done|].
    rewrite (find_timer_elem h cb) by (apply Hok || done).
    split; [|done]. intros Heq. exfalso.
    assert (Hl : length (pub_transform_ (fire h now c))
                 = length (pub_transform_ c)) by by rewrite Heq.
    rewrite Hfire in Hl. cbn in Hl. rewrite length_app in Hl. cbn in Hl. lia.
  - intros name h now Hl.
    destruct (ok_slot _ Hok _ _ Hl) as (cb & Hin & Hcb).
    split; [by apply (ok_timer _ Hok) in Hin as [? _]|].
    rewrite (fire_elem h cb now c Hok Hin). eexists.
    split; [apply new_transforms_publish|done].
Qed.

(** X10. Registering (or re-registering) one name leaves every other
    name alone: the other name's slot, its timer, and the pose a tick
    publishes for it are what they were. *)
Theorem createTimer_leaves_other_names (ops : list Op) (n name : string)
  (speed now : R) :
  n ≠ name →
  let c := exec ops Controller_init in
  let c' := createTimer n speed now c in
  pub_timer_map_ c' !! name = pub_timer_map_ c !! name ∧
  filter (λ e, cb_name e.2 = name) (timer_manager c')
    = filter (λ e, cb_name e.2 = name) (timer_manager c) ∧
  ∀ t, filter (λ ts, child_frame_id ts = name) (new_transforms c' (tick t c'))
       = filter (λ ts, child_frame_id ts = name) (new_transforms c (tick t c)).
Proof.
  intros Hn c c'.
  assert (Hok : registry_ok c) by apply exec_ok, registry_ok_init.
  assert (Hok' : registry_ok c') by by apply createTimer_ok.
  pose proof (createTimer_other_schedules name n speed now c Hok Hn) as Hf.
  split; [|split; [done|]].
  - unfold c', createTimer; cbn. by rewrite lookup_insert_ne.
  - intros t. rewrite !tick_output, !filter_timer_output by done.
    unfold c'. by rewrite Hf.
Qed.

(** X10 for "dog_doll" re-registered while "bear_doll" is watched. *)
Lemma createTimer_leaves_other_names_witness :
  "dog_doll" ≠ "bear_doll" ∧
  let c := exec [OpCreateTimer "bear_doll" 0.5 1; OpCreateTimer "dog_doll" 0.6 2]
             Controller_init in
  pub_timer_map_ (createTimer "dog_doll" 0.9 3 c) !! "bear_doll"
    = pub_timer_map_ c !! "bear_doll".
Proof.
  assert (H : "dog_doll" ≠ "bear_doll") by discriminate.
  split; [exact H|].
  exact (proj1 (createTimer_leaves_other_names
    [OpCreateTimer "bear_doll" 0.5 1; OpCreateTimer "dog_doll" 0.6 2]
    "dog_doll" "bear_doll" 0.9 3 H)).
Defined.

(** * Further properties of the motion *)

(** X11. Between two firings an object turns about the origin by the
    angle [speed * (now2 - now1)], whatever its start time: the later
    position is the earlier one rotated by that angle. For a speed other
    than 0 the position repeats after [2 * PI / speed] of clock time. *)
Theorem position_rotates (name : string) (start_time speed now1 now2 : R) :
  let p1 := translation (callback_transform name start_time speed now1) in
  let p2 := translation (callback_transform name start_time speed now2) in
  let d := (speed * (now2 - now1))%R in
  (pos_val start_time speed now2 - pos_val start_time speed now1 = d)%R ∧
  v_x p2 = (v_x p1 * cos d - v_y p1 * sin d)%R ∧
  v_y p2 = (v_x p1 * sin d + v_y p1 * cos d)%R ∧
  (speed ≠ 0%R →
   callback_transform name start_time speed (now1 + 2 * PI / speed)
     = callback_transform name start_time speed now1).
Proof.
  intros p1 p2 d. subst p1 p2. cbn. unfold pos_val.
  set (a := (start_time + speed * now1)%R).
  assert (Hsum : (start_time + speed * now2 = a + d)%R)
    by (unfold a, d; ring).
  split; [unfold a, d; ring|].
  rewrite Hsum, (cos_plus a d), (sin_plus a d).
  split; [done|]. split; [ring|].
  intros Hs. unfold callback_transform, pos_val. fold a.
  replace (start_time + speed * (now1 + 2 * PI / speed))%R
    with (a + 2 * PI)%R by (unfold a; field; done).
  rewrite (cos_plus a (2 * PI)), (sin_plus a (2 * PI)), cos_2PI, sin_2PI.
  by rewrite !Rmult_0_r, !Rmult_1_r, Rminus_0_r, Rplus_0_r.
Qed.

(** X11 for the speed of "bear_doll". *)
Lemma position_rotates_witness :
  (0.5 ≠ 0)%R ∧
  callback_transform "bear_doll" 100 0.5 (7 + 2 * PI / 0.5)
    = callback_transform "bear_doll" 100 0.5 7.
Proof.
  assert (H : (0.5 ≠ 0)%R) by lra.
  split; [exact H|].
  exact (proj2 (proj2 (proj2
    (position_rotates "bear_doll" 100 0.5 7 0))) H).
Defined.

Section run_timers.



Lemma spinOnce_app due1 due2 c :
  spinOnce (due1 ++ due2) c = spinOnce due2 (spinOnce due1 c).
Proof. unfold spinOnce. by rewrite foldl_app. Qed.

Lemma spinOnce_transforms (P : TransformStamped → Prop) due c :
  (∀ e now, e ∈ timer_manager c → P (timer_output now e)) →
  Forall P (pub_transform_ c) → Forall P (pub_transform_ (spinOnce due c)).
Proof.
  revert c. induction due as [|d due IH]; intros c Htm Hc; [done|].
  change (spinOnce (d :: due) c) with (spinOnce due (fire d.1 d.2 c)).
  destruct (fire_registry d.1 d.2 c) as (_ & Ht & _).
  apply IH; [by rewrite Ht|].
  destruct (fire_cases d.1 d.2 c) as [[_ ->]|(cb & Hin & ->)]; [done|].
  cbn. apply Forall_app. split; [done|]. apply Forall_singleton. by apply Htm.
Qed.

(** With nothing polled, an iteration only spins. *)
Lemma loop_body_idle it w :
  canReceive it = 0 →
  loop_body it w
    = Running (if it_sigint it
               then rosSigintHandler (set_ctl (spinOnce (it_due it) (ctl w)) w)
               else set_ctl (spinOnce (it_due it) (ctl w)) w).
Proof. intros Hsel. unfold loop_body, poll_keyboard. by rewrite Hsel. Qed.

Lemma loop_idle cooked its w :
  Forall (λ it, canReceive it = 0) its →
  ∃ due w',
    ctl w' = spinOnce due (ctl w) ∧
    (loop cooked its w = Running w' ∨
     loop cooked its w = Exited EXIT_SUCCESS w').
Proof.
  revert w. induction its as [|it its IH]; intros w Hidle; cbn.
  - destruct (ros_ok w).
    + exists [], w. split; [done|by left].
    + exists [], (set_tty cooked w). split; [done|by right].
  - destruct (ros_ok w) eqn:Hok.
    + apply Forall_cons in Hidle as [Hit Hidle].
      rewrite (loop_body_idle it w Hit).
      destruct (IH (if it_sigint it
                    then rosSigintHandler
                           (set_ctl (spinOnce (it_due it) (ctl w)) w)
                    else set_ctl (spinOnce (it_due it) (ctl w)) w) Hidle)
        as (due & w' & Hctl & Hres).
      exists (it_due it ++ due), w'. split; [|done].
      rewrite spinOnce_app, Hctl. by destruct (it_sigint it).
    + exists [], (set_tty cooked w). split; [done|by right].
Qed.

End run_timers.


Section help.

Lemma help_keys_recognized : help_keys = recognized_keys.
Proof. reflexivity. Qed.

Lemma help_grasped_lines :
  omap help_grasped showHelp
    = [(KEYCODE_G, "bear_doll"); (KEYCODE_H, "dog_doll");
       (KEYCODE_I, "rabbit_doll")].
Proof. reflexivity. Qed.

Lemma publish_msg_changes m c : publish_msg m c ≠ c.
Proof.
  intros Heq.
  assert (Hl : length (pub_msg_ (publish_msg m c)) = length (pub_msg_ c))
    by by rewrite Heq.
  cbn in Hl. rewrite length_app in Hl. cbn in Hl. lia.
Qed.

Lemma publish_transform_changes ts c : publish_transform ts c ≠ c.
Proof.
  intros Heq.
  assert (Hl : length (pub_transform_ (publish_transform ts c))
               = length (pub_transform_ c)) by by rewrite Heq.
  cbn in Hl. rewrite length_app in Hl. cbn in Hl. lia.
Qed.

End help.

(** X13. The help text and the dispatcher agree: the keys the help
    documents are the keys the [switch] has a case for, a key changes the
    controller exactly when the help documents it, and for every help
    line "k : Send Grasped name" the key [k] sends "grasped,name" and
    [name] is one of the tracked objects. *)
Theorem help_documents_the_dispatcher (c : Controller) :
  help_keys = recognized_keys ∧
  (∀ k, k ∈ help_keys ↔ dispatch k c ≠ c) ∧
  (∀ line k name, line ∈ showHelp → help_grasped line = Some (k, name) →
     dispatch k c = publish_msg ("grasped," +:+ name) c ∧
     name ∈ tracked_names).
Proof.
  split; [apply help_keys_recognized|]. split.
  - intros k. rewrite help_keys_recognized.
    destruct (dispatch_cases k c)
      as [[Hk ->]|[Hk [(m & _ & ->)|(x & y & _ & ->)]]].
    + split; [by intros ?|by intros ?].
    + split; [intros _; apply publish_msg_changes|done].
    + split; [intros _; apply publish_transform_changes|done].
  - intros line k name Hin Hg.
    assert (Hom : (k, name) ∈ omap help_grasped showHelp).
    { apply list_elem_of_omap. by exists line. }
    rewrite help_grasped_lines in Hom.
    repeat (apply elem_of_cons in Hom as [[= -> ->]|Hom]).
    + split; [done|apply tracked_bear].
    + split; [done|apply tracked_dog].
    + split; [done|apply tracked_rabbit].
    + by apply elem_of_nil in Hom.
Qed.

(** X14. A run in which the poll never reports input never fails and
    never makes the out-of-bounds access: it is still running or has
    returned [EXIT_SUCCESS]; it sends no message and never moves the
    table, every pose published being for one of the three dolls. *)
Theorem idle_keyboard_run (tty0 : termios) (garbage : nat → Z) (t1 t2 t3 : R)
  (its : list Iteration) :
  Forall (λ it, canReceive it = 0) its →
  let o := run tty0 garbage t1 t2 t3 its in
  (∃ w, o = Running w ∨ o = Exited EXIT_SUCCESS w) ∧
  pub_msg_ (ctl (world_of o)) = [] ∧
  Forall (λ ts, child_frame_id ts ∈ tracked_names)
         (pub_transform_ (ctl (world_of o))).
Proof.
  intros Hidle o. subst o. rewrite run_enters_loop.
  set (w0 := mkWorld (controller_at_loop_entry t1 t2 t3) (make_raw tty0)
               (garbage <$> seq 0 (Z.to_nat sizeof_buf)) false).
  destruct (loop_idle tty0 its w0 Hidle) as (due & w' & Hctl & Hres).
  assert (Hw : ctl (world_of (loop tty0 its w0)) = ctl w')
    by (destruct Hres as [-> | ->]; done).
  split; [by exists w'|]. rewrite Hw, Hctl. cbn [ctl w0]. split.
  - by destruct (spinOnce_count due (controller_at_loop_entry t1 t2 t3))
      as [-> _].
  - apply spinOnce_transforms; [|by constructor].
    intros [h cb] t Hin. cbn.
    by apply (known_at_loop_entry t1 t2 t3) in Hin.
Qed.

(** X14 for two idle iterations with the three timers due. *)
Lemma idle_keyboard_run_witness :
  let its := [mkIteration 0 ReadFails [(0%nat, 1%R); (1%nat, 1%R)] false;
              mkIteration 0 (ReadGives []) [(2%nat, 2%R)] true] in
  Forall (λ it, canReceive it = 0) its ∧
  pub_msg_ (ctl (world_of (run (mkTermios 0x8a3b 0 4) (λ _, 0) 0 0 0 its))) = [].
Proof.
  intros its.
  assert (H : Forall (λ it, canReceive it = 0) its)
    by (repeat constructor).
  split; [exact H|].
  exact (proj1 (proj2 (idle_keyboard_run (mkTermios 0x8a3b 0 4) (λ _, 0)
                         0 0 0 its H))).
Defined.

Section progress.

Lemma poll_keyboard_runs it w :
  canReceive it = 0 ∨ (∃ p, it_read it = ReadGives p ∧ p ≠ []) →
  ∃ w1, poll_keyboard it w = Running w1 ∧
        tty w1 = tty w ∧ shutdown_flag w1 = shutdown_flag w.
Proof.
  intros Hin. unfold poll_keyboard.
  destruct (canReceive it =? 0) eqn:Hsel; [by exists w|].
  destruct Hin as [Hz|(p & Hread & Hp)]; [apply Z.eqb_neq in Hsel; lia|].
  rewrite Hread.
  destruct (read_last p (buf w) Hp) as (c & _ & Hret & Hidx).
  destruct (read (ReadGives p) sizeof_buf (buf w)) as [ret b].
  cbn in Hret, Hidx. rewrite Hidx.
  replace (ret <? 0) with false by (symmetry; apply Z.ltb_ge; lia).
  by eexists.
Qed.

End progress.

(** X15. The loop does not stop on its own: as long as no interrupt
    arrives and every poll that reports input is followed by a read of at
    least one byte, every iteration runs and the program is still in the
    loop afterwards, the terminal still raw. *)
Theorem loop_keeps_running (cooked : termios) (its : list Iteration)
  (w : World) :
  ros_ok w = true →
  Forall (λ it, it_sigint it = false ∧
                (canReceive it = 0 ∨ ∃ p, it_read it = ReadGives p ∧ p ≠ []))
         its →
  ∃ w', loop cooked its w = Running w' ∧ tty w' = tty w ∧
        (publish_count (ctl w) ≤ publish_count (ctl w'))%nat.
Proof.
  revert w. induction its as [|it its IH]; intros w Hok Hall; cbn; rewrite Hok.
  - by exists w.
  - apply Forall_cons in Hall as [[Hsig Hin] Hall].
    destruct (poll_keyboard_runs it w Hin) as (w1 & Hp & Htty & Hflag).
    pose proof (poll_keyboard_ctl it w) as Hc. rewrite Hp in Hc.
    unfold loop_body. rewrite Hp, Hsig.
    destruct (IH (set_ctl (spinOnce (it_due it) (ctl w1)) w1))
      as (w' & Hl & Htty' & Hcount); [|done|].
    + unfold ros_ok in *. cbn. by rewrite Hflag.
    + exists w'. split; [done|]. split; [by rewrite Htty'|].
      cbn in Hcount.
      destruct (spinOnce_count (it_due it) (ctl w1)) as [Hm Ht].
      unfold publish_count in *. rewrite Hm in Hcount.
      destruct Hc as [Hc|[k Hc]]; rewrite Hc in *; [lia|].
      destruct (dispatch_count k (ctl w)) as (H1 & H2 & _). lia.
Qed.

(** X15 for an idle iteration followed by a burst of two keys. *)
Lemma loop_keeps_running_witness :
  let w := mkWorld Controller_init (mkTermios 0 1 2) [] false in
  ∃ w', loop (mkTermios 10 0 4)
          [mkIteration 0 ReadFails [] false;
           mkIteration 1 (ReadGives [KEYCODE_1; KEYCODE_R]) [] false] w
        = Running w' ∧ tty w' = tty w ∧
        (publish_count (ctl w) ≤ publish_count (ctl w'))%nat.
Proof.
  intros w.
  apply (loop_keeps_running (mkTermios 10 0 4)
           [mkIteration 0 ReadFails [] false;
            mkIteration 1 (ReadGives [KEYCODE_1; KEYCODE_R]) [] false] w).
  - reflexivity.
  - constructor; [split; [reflexivity|left; reflexivity]|].
    constructor; [|constructor].
    split; [reflexivity|]. right. exists [KEYCODE_1; KEYCODE_R].
    split; [reflexivity|discriminate].
Defined.
